(** * GMR-1 AMBE vocoder, internal API ([src/codec/ambe.c])

    A shallow embedding of the per-frame decode orchestration: frame
    classification ([ambe_classify_frame]), conversion of a decoded
    subframe to mbelib's parameter block ([ambe_subframe_to_mbelib]), the
    speech / silence / tone dispatch ([ambe_decode_speech],
    [ambe_decode_frame]) and the DTX filler ([ambe_decode_dtx]).
    [ambe_decode_init] (a [memset] and a call into mbelib) and
    [ambe_decode_fini] (empty) are left out.

    Conventions.
    - C [int] values are [Z]; [uint8_t] is [Byte.byte]; [int16_t] samples
      are [Z]; [float] is IEEE-754 binary32, taken from the Standard
      Library's specification of floating-point numbers ([SpecFloat]) at
      precision 24 and maximal exponent 128, round to nearest even, every
      operation rounded to [float] (FLT_EVAL_METHOD 0).
    - C arrays are lists whose length is the declared size of the array.  An
      access outside the array, a conversion of a float that does not fit
      [int], and a store past the end of the audio buffer have no defined
      behaviour in C: the model stops there with [None].
    - The routines of [private.h], of mbelib and of libm that [ambe.c] only
      calls ([ambe_frame_unpack_raw], [ambe_frame_decode_params],
      [mbe_spectralAmpEnhance], [mbe_synthesizeSpeech], [mbe_moveMbeParms],
      [ambe_decode_tone], [powf]) are fields of the class [Collaborators];
      every call made to them is recorded, in order, with the objects it was
      handed and the value it returned. *)

From Stdlib Require Import ZArith Bool Lia Strings.Byte.
From Stdlib Require Import Floats.SpecFloat.
From stdpp Require Import base list vector.

Local Open Scope Z_scope.

(** ** C [float] arithmetic *)

Module F32.

Definition prec : Z := 24.
Definition emax : Z := 128.

Definition float : Type := spec_float.

Definition mul : float -> float -> float := SFmul prec emax.
Definition div : float -> float -> float := SFdiv prec emax.
Definition sqrtf : float -> float := SFsqrt prec emax.
Definition ltb : float -> float -> bool := SFltb.

(** Conversion of an [int] (implicit in [(i-1) * 16.0f]) and, more
    generally, rounding of the exact value [m * 2^e] to a [float]. *)
Definition round (m e : Z) : float := binary_normalize prec emax m e false.
Definition of_int (n : Z) : float := round n 0.

Definition zero : float := S754_zero false.

Definition INT_MIN : Z := - 2 ^ 31.
Definition INT_MAX : Z := 2 ^ 31 - 1.

(** Magnitude of a finite float with its fractional part discarded. *)
Definition trunc_mag (m : positive) (e : Z) : Z :=
  if 0 <=? e then Z.pos m * 2 ^ e else Z.pos m / 2 ^ (- e).

(** The cast [(int)x]: the fractional part is discarded (truncation
    toward zero); a NaN, an infinity or an integral part that [int]
    cannot hold is undefined. *)
Definition to_int (x : float) : option Z :=
  match x with
  | S754_zero _ => Some 0
  | S754_finite s m e =>
      let v := cond_Zopp s (trunc_mag m e) in
      if (INT_MIN <=? v) && (v <=? INT_MAX) then Some v else None
  | S754_infinity _ | S754_nan => None
  end.

(** The mathematical floor of a finite float, for comparison with
    [to_int]. *)
Definition floor (x : float) : option Z :=
  match x with
  | S754_zero _ => Some 0
  | S754_finite s m e =>
      Some (if 0 <=? e then cond_Zopp s (Z.pos m) * 2 ^ e
            else cond_Zopp s (Z.pos m) / 2 ^ (- e))
  | S754_infinity _ | S754_nan => None
  end.

(** Not NaN and not below zero. *)
Definition nonneg (x : float) : bool :=
  match x with
  | S754_zero _ | S754_finite false _ _ | S754_infinity false => true
  | _ => false
  end.

(** Either NaN or not below zero. *)
Definition nan_or_nonneg (x : float) : Prop :=
  x = S754_nan \/ nonneg x = true.

(** The literals of [ambe.c]. *)
Definition two : float := of_int 2.          (* 2.0f, and (float)2.0 *)
Definition six : float := of_int 6.          (* 6.0f *)
Definition sixteen : float := of_int 16.     (* 16.0f *)
(** [M_PI] is the [double] 0x400921FB54442D18, that is
    7074237752028440 * 2^-51; the cast [(float)M_PI] rounds it. *)
Definition M_PI_f : float := round 7074237752028440 (-51).
(** [0.2046f]: the float nearest to 2046/10000. *)
Definition c_0_2046 : float := div (of_int 2046) (of_int 10000).

End F32.

(** ** Frames and their classification *)

(** Frame data: 10 bytes = 80 bits. *)
Definition frame : Type := vec byte 10.

Inductive ambe_frame_type : Type :=
  | AMBE_SPEECH
  | AMBE_SILENCE
  | AMBE_TONE.

Definition byte_val (b : byte) : Z := Z.of_N (Byte.to_N b).

(** [frame[0] & 0xfc], then the [switch]. *)
Definition classify_byte (b : byte) : ambe_frame_type :=
  match Z.land (byte_val b) 0xfc with
  | 0xfc => AMBE_TONE
  | 0xf8 => AMBE_SILENCE
  | _ => AMBE_SPEECH
  end.

Definition ambe_classify_frame (f : frame) : ambe_frame_type :=
  classify_byte (Vector.hd f).

(** The top six bits of a byte. *)
Definition top6 (b : byte) : Z := Z.shiftr (byte_val b) 2.

Definition frame_of (b : byte) (rest : vec byte 9) : frame := vcons b rest.

(** ** Data model *)

(** Types declared in [private.h] and [mbelib.h] whose members [ambe.c]
    never names. *)
Class ExternalTypes : Type := {
  ambe_raw_params : Type;  (* struct ambe_raw_params *)
  mbe_ext : Type           (* the members of mbe_parms other than w0, L, Vl, Ml *)
}.

(** [struct ambe_subframe], the members read by [ambe.c]. *)
Record ambe_subframe : Type := {
  f0 : F32.float;          (* fundamental frequency *)
  sf_L : Z;                (* L: number of harmonics *)
  v_uv : list Z;           (* voicing state per band *)
  Mlog : list F32.float    (* log spectral magnitudes *)
}.

(** [mbe_parms]. *)
Record mbe_parms `{ExternalTypes} : Type := {
  w0 : F32.float;
  mp_L : Z;                (* L *)
  Vl : list Z;
  Ml : list F32.float;
  mp_ext : mbe_ext
}.

(** [struct ambe_decoder]. *)
Record ambe_decoder `{ExternalTypes} : Type := {
  mp_prev : mbe_parms;
  sf_prev : ambe_subframe
}.

(** What a call leaves behind: the value returned, the audio buffer and the
    decoder state. *)
Record outcome `{ExternalTypes} : Type := {
  rc : Z;
  audio_out : list Z;
  dec_out : ambe_decoder
}.

(** What [mbe_synthesizeSpeech(out, cur, prev, uvquality)] leaves behind:
    the samples stored from [out] on, and [*cur] and [*prev]. *)
Record synth_out `{ExternalTypes} : Type := {
  syn_status : Z;
  syn_pcm : list Z;
  syn_cur : mbe_parms;
  syn_prev : mbe_parms
}.

(** ** Collaborators

    Each routine maps the objects it is handed to the value of the call
    expression (an [int]; [ambe.c] discards it everywhere but on the tone
    path, and a routine declared [void] has none) and the objects it
    writes. *)
Class Collaborators `{ExternalTypes} : Type := {
  (* ambe_frame_unpack_raw(&rp, frame): fills rp *)
  ambe_frame_unpack_raw : frame -> Z * ambe_raw_params;
  (* ambe_frame_decode_params(sf, &dec->sf_prev, &rp): fills sf[0], sf[1] *)
  ambe_frame_decode_params :
    ambe_subframe -> ambe_raw_params -> Z * (ambe_subframe * ambe_subframe);
  (* mbe_spectralAmpEnhance(&mp): updates mp *)
  mbe_spectralAmpEnhance : mbe_parms -> Z * mbe_parms;
  (* mbe_synthesizeSpeech(out, cur, prev, uvquality) *)
  mbe_synthesizeSpeech : mbe_parms -> mbe_parms -> Z -> synth_out;
  (* mbe_moveMbeParms(cur, prev): cur and prev as it leaves them *)
  mbe_moveMbeParms : mbe_parms -> mbe_parms -> Z * (mbe_parms * mbe_parms);
  (* ambe_decode_tone(dec, audio, N, frame): the buffer and the state as it
     leaves them *)
  ambe_decode_tone :
    ambe_decoder -> list Z -> Z -> frame -> Z * (list Z * ambe_decoder);
  (* powf of libm *)
  powf : F32.float -> F32.float -> F32.float;
  (* the indeterminate initial contents of the automatic array mp[2] *)
  mp_auto : mbe_parms * mbe_parms
}.

(** The three [mbe_parms] objects a speech decode works on. *)
Inductive mp_object : Type :=
  | Mp0          (* &mp[0] *)
  | Mp1          (* &mp[1] *)
  | DecMpPrev.   (* &dec->mp_prev *)

(** A call to a collaborator, with the arguments it receives; an
    [mbe_parms] argument is given as the object pointed to and its contents
    at the time of the call. *)
Inductive call `{ExternalTypes} : Type :=
  | Call_unpack_raw (fr : frame)
  | Call_decode_params (sfp : ambe_subframe) (rp : ambe_raw_params)
  | Call_spectralAmpEnhance (mp : mp_object * mbe_parms)
  | Call_synthesizeSpeech (offset : Z) (cur prev : mp_object * mbe_parms)
                          (uvquality : Z)
  | Call_moveMbeParms (cur prev : mp_object * mbe_parms)
  | Call_decode_tone (dec : ambe_decoder) (N : Z) (fr : frame).

Record event `{ExternalTypes} : Type := {
  ev_call : call;
  ev_status : Z            (* the value the call returned *)
}.

(** ** Computations: a trace of collaborator calls, and undefined behaviour *)

Definition M `{ExternalTypes} (A : Type) : Type :=
  list event -> option (A * list event).

Definition ret `{ExternalTypes} {A} (a : A) : M A := fun tr => Some (a, tr).

Definition bind `{ExternalTypes} {A B} (m : M A) (k : A -> M B) : M B :=
  fun tr => match m tr with
            | Some (a, tr') => k a tr'
            | None => None
            end.

(** An operation that C leaves undefined when [o] is [None]. *)
Definition defined `{ExternalTypes} {A} (o : option A) : M A :=
  fun tr => match o with
            | Some a => Some (a, tr)
            | None => None
            end.

(** A call that returned [st] and left [r] behind: recorded at the end of
    the trace, and [r] handed back. *)
Definition extern `{ExternalTypes} {A} (c : call) (st : Z) (r : A) : M A :=
  fun tr => Some (r, tr ++ [{| ev_call := c; ev_status := st |}]).

Declare Scope comp_scope.
Delimit Scope comp_scope with comp.
Notation "'let*' p ':=' m 'in' k" := (bind m (fun p => k))
  (at level 10, p pattern, m at level 100, k at level 200) : comp_scope.

(** ** Arrays and buffers *)

Definition array_get {A} (a : list A) (i : Z) : option A :=
  if 0 <=? i then a !! Z.to_nat i else None.

Definition array_set {A} (a : list A) (i : Z) (x : A) : option (list A) :=
  if (0 <=? i) && (i <? Z.of_nat (length a))
  then Some (<[Z.to_nat i := x]> a)
  else None.

Definition sizeof_int16_t : Z := 2.

(** [memset(audio, 0, nbytes)] on a buffer of [int16_t]: the first
    [nbytes / sizeof(int16_t)] samples have all their bytes cleared, which
    makes them 0; the others are untouched.  Clearing past the end of the
    buffer is undefined.  ([ambe.c] only passes whole numbers of samples;
    the count is a [size_t], so a negative [int] would become a huge one.) *)
Definition memset_zero (audio : list Z) (nbytes : Z) : option (list Z) :=
  let n := nbytes / sizeof_int16_t in
  if (0 <=? nbytes) && (nbytes mod sizeof_int16_t =? 0)
     && (n <=? Z.of_nat (length audio))
  then Some (replicate (Z.to_nat n) 0 ++ drop (Z.to_nat n) audio)
  else None.

(** Samples stored by a callee from [audio + offset] on. *)
Definition store_samples (audio : list Z) (offset : Z) (pcm : list Z)
  : option (list Z) :=
  if (0 <=? offset) && (offset + Z.of_nat (length pcm) <=? Z.of_nat (length audio))
  then Some (take (Z.to_nat offset) audio ++ pcm
             ++ drop (Z.to_nat offset + length pcm) audio)
  else None.

(** ** Conversion of a subframe to mbelib's parameters *)

Section Converter.
Context `{K : Collaborators}.

Definition set_w0_L (mp : mbe_parms) (w : F32.float) (l : Z) : mbe_parms :=
  {| w0 := w; mp_L := l; Vl := Vl mp; Ml := Ml mp; mp_ext := mp_ext mp |}.

Definition set_Vl (mp : mbe_parms) (vl : list Z) : mbe_parms :=
  {| w0 := w0 mp; mp_L := mp_L mp; Vl := vl; Ml := Ml mp;
     mp_ext := mp_ext mp |}.

Definition set_Ml (mp : mbe_parms) (ml : list F32.float) : mbe_parms :=
  {| w0 := w0 mp; mp_L := mp_L mp; Vl := Vl mp; Ml := ml;
     mp_ext := mp_ext mp |}.

(** [(i-1) * 16.0f * sf->f0], evaluated left to right in [float]. *)
Definition band_position (sf : ambe_subframe) (i : Z) : F32.float :=
  F32.mul (F32.mul (F32.of_int (i - 1)) F32.sixteen) (f0 sf).

(** [powf(2.0, sf->Mlog[i-1]) / 6.0f] *)
Definition magnitude (mlog : F32.float) : F32.float :=
  F32.div (powf F32.two mlog) F32.six.

(** The body of the [for] loop, for one value of [i]. *)
Definition harmonic_step (unvc : F32.float) (sf : ambe_subframe) (i : Z)
    (mp : mbe_parms) : option mbe_parms :=
  j ← F32.to_int (band_position sf i);          (* int j = (int)(...) *)
  v ← array_get (v_uv sf) j;
  vl ← array_set (Vl mp) i v;                   (* mp->Vl[i] = sf->v_uv[j] *)
  let mp := set_Vl mp vl in
  mlog ← array_get (Mlog sf) (i - 1);
  ml ← array_set (Ml mp) i (magnitude mlog);    (* mp->Ml[i] = powf(..) / 6.0f *)
  let mp := set_Ml mp ml in
  vi ← array_get (Vl mp) i;
  if vi =? 0                                    (* if (!mp->Vl[i]) *)
  then m ← array_get (Ml mp) i;
       ml ← array_set (Ml mp) i (F32.mul m unvc);   (* mp->Ml[i] *= unvc *)
       Some (set_Ml mp ml)
  else Some mp.

(** [for (i = i0; i <= mp->L; i++)] with [n] iterations left. *)
Fixpoint harmonic_loop (n : nat) (unvc : F32.float) (sf : ambe_subframe)
    (i : Z) (mp : mbe_parms) : option mbe_parms :=
  match n with
  | O => Some mp
  | S n' =>
      mp' ← harmonic_step unvc sf i mp;
      harmonic_loop n' unvc sf (i + 1) mp'
  end.

Definition two_pi : F32.float := F32.mul F32.two F32.M_PI_f.

Definition ambe_subframe_to_mbelib (mp : mbe_parms) (sf : ambe_subframe)
  : option mbe_parms :=
  let mp := set_w0_L mp (F32.mul (f0 sf) two_pi) (sf_L sf) in
  let unvc := F32.div F32.c_0_2046 (F32.sqrtf (w0 mp)) in
  harmonic_loop (Z.to_nat (mp_L mp)) unvc sf 1 mp.

End Converter.

(** ** Decoding *)

Section Decoder.
Context `{K : Collaborators}.
Local Open Scope comp_scope.

Definition call_unpack_raw (fr : frame) : M (Z * ambe_raw_params) :=
  let r := ambe_frame_unpack_raw fr in
  extern (Call_unpack_raw fr) r.1 r.

Definition call_decode_params (sfp : ambe_subframe) (rp : ambe_raw_params)
  : M (Z * (ambe_subframe * ambe_subframe)) :=
  let r := ambe_frame_decode_params sfp rp in
  extern (Call_decode_params sfp rp) r.1 r.

Definition call_spectralAmpEnhance (o : mp_object) (mp : mbe_parms)
  : M (Z * mbe_parms) :=
  let r := mbe_spectralAmpEnhance mp in
  extern (Call_spectralAmpEnhance (o, mp)) r.1 r.

Definition call_synthesizeSpeech (offset : Z) (oc : mp_object)
    (cur : mbe_parms) (op : mp_object) (prev : mbe_parms) (uvquality : Z)
  : M synth_out :=
  let r := mbe_synthesizeSpeech cur prev uvquality in
  extern (Call_synthesizeSpeech offset (oc, cur) (op, prev) uvquality)
         (syn_status r) r.

Definition call_moveMbeParms (oc : mp_object) (cur : mbe_parms)
    (op : mp_object) (prev : mbe_parms) : M (Z * (mbe_parms * mbe_parms)) :=
  let r := mbe_moveMbeParms cur prev in
  extern (Call_moveMbeParms (oc, cur) (op, prev)) r.1 r.

Definition call_decode_tone (dec : ambe_decoder) (audio : list Z) (N : Z)
    (fr : frame) : M (Z * (list Z * ambe_decoder)) :=
  let r := ambe_decode_tone dec audio N fr in
  extern (Call_decode_tone dec N fr) r.1 r.

Definition ambe_decode_speech (dec : ambe_decoder) (audio : list Z) (N : Z)
    (fr : frame) (bad : Z) : M outcome :=
  (* Unpack frame *)
  let* (_, rp) := call_unpack_raw fr in
  (* Decode subframe parameters *)
  let* (_, (sf0, sf1)) := call_decode_params (sf_prev dec) rp in
  (* Convert both subframes to mbelib's format *)
  let* mp0 := defined (ambe_subframe_to_mbelib mp_auto.1 sf0) in
  let* mp1 := defined (ambe_subframe_to_mbelib mp_auto.2 sf1) in
  (* Synthesize speech *)
  let* (_, mp0) := call_spectralAmpEnhance Mp0 mp0 in
  let* (_, mp1) := call_spectralAmpEnhance Mp1 mp1 in
  (* mbe_synthesizeSpeech(audio, &mp[0], &dec->mp_prev, 2) *)
  let* s0 := call_synthesizeSpeech 0 Mp0 mp0 DecMpPrev (mp_prev dec) 2 in
  let* audio := defined (store_samples audio 0 (syn_pcm s0)) in
  let mp0 := syn_cur s0 in
  let mpp := syn_prev s0 in
  (* mbe_synthesizeSpeech(audio+80, &mp[1], &mp[0], 2) *)
  let* s1 := call_synthesizeSpeech 80 Mp1 mp1 Mp0 mp0 2 in
  let* audio := defined (store_samples audio 80 (syn_pcm s1)) in
  let mp1 := syn_cur s1 in
  (* mbe_moveMbeParms(&mp[1], &dec->mp_prev) *)
  let* (_, (_, mpp)) := call_moveMbeParms Mp1 mp1 DecMpPrev mpp in
  (* Save subframe; done *)
  ret {| rc := 0; audio_out := audio;
         dec_out := {| mp_prev := mpp; sf_prev := sf1 |} |}.

(** The [switch] covers the three constants of the enumeration, so the
    trailing [return -EINVAL] is never reached. *)
Definition ambe_decode_frame (dec : ambe_decoder) (audio : list Z) (N : Z)
    (fr : frame) (bad : Z) : M outcome :=
  match ambe_classify_frame fr with
  | AMBE_SPEECH => ambe_decode_speech dec audio N fr bad
  | AMBE_SILENCE =>
      let* audio := defined (memset_zero audio (160 * sizeof_int16_t)) in
      ret {| rc := 0; audio_out := audio; dec_out := dec |}
  | AMBE_TONE =>
      let* (r, (audio, dec)) := call_decode_tone dec audio N fr in
      ret {| rc := r; audio_out := audio; dec_out := dec |}
  end.

Definition ambe_decode_dtx (dec : ambe_decoder) (audio : list Z) (N : Z)
  : M outcome :=
  let* audio := defined (memset_zero audio (sizeof_int16_t * N)) in
  ret {| rc := 0; audio_out := audio; dec_out := dec |}.

End Decoder.

(** ** The speech path, object by object

    The values that flow through [ambe_decode_speech] once both conversions
    have produced [c0] and [c1], and the calls made on the way. *)

Section SpeechSteps.
Context `{K : Collaborators}.
Variables (dec : ambe_decoder) (fr : frame).

(** [rp] after [ambe_frame_unpack_raw]. *)
Definition unpacked : ambe_raw_params := (ambe_frame_unpack_raw fr).2.

(** [sf[0]] and [sf[1]] after [ambe_frame_decode_params]. *)
Definition decoded_subframes : ambe_subframe * ambe_subframe :=
  (ambe_frame_decode_params (sf_prev dec) unpacked).2.

(** [mp[k]] after [mbe_spectralAmpEnhance]. *)
Definition enhanced (c : mbe_parms) : mbe_parms :=
  (mbe_spectralAmpEnhance c).2.

Definition first_synthesis (c0 : mbe_parms) : synth_out :=
  mbe_synthesizeSpeech (enhanced c0) (mp_prev dec) 2.

Definition second_synthesis (c0 c1 : mbe_parms) : synth_out :=
  mbe_synthesizeSpeech (enhanced c1) (syn_cur (first_synthesis c0)) 2.

Definition final_move (c0 c1 : mbe_parms) : Z * (mbe_parms * mbe_parms) :=
  mbe_moveMbeParms (syn_cur (second_synthesis c0 c1))
                   (syn_prev (first_synthesis c0)).

Definition speech_events (c0 c1 : mbe_parms) : list event :=
  [ {| ev_call := Call_unpack_raw fr;
       ev_status := (ambe_frame_unpack_raw fr).1 |};
    {| ev_call := Call_decode_params (sf_prev dec) unpacked;
       ev_status := (ambe_frame_decode_params (sf_prev dec) unpacked).1 |};
    {| ev_call := Call_spectralAmpEnhance (Mp0, c0);
       ev_status := (mbe_spectralAmpEnhance c0).1 |};
    {| ev_call := Call_spectralAmpEnhance (Mp1, c1);
       ev_status := (mbe_spectralAmpEnhance c1).1 |};
    {| ev_call := Call_synthesizeSpeech 0 (Mp0, enhanced c0)
                    (DecMpPrev, mp_prev dec) 2;
       ev_status := syn_status (first_synthesis c0) |};
    {| ev_call := Call_synthesizeSpeech 80 (Mp1, enhanced c1)
                    (Mp0, syn_cur (first_synthesis c0)) 2;
       ev_status := syn_status (second_synthesis c0 c1) |};
    {| ev_call := Call_moveMbeParms (Mp1, syn_cur (second_synthesis c0 c1))
                    (DecMpPrev, syn_prev (first_synthesis c0));
       ev_status := (final_move c0 c1).1 |} ].

End SpeechSteps.

(** ** Reading a trace *)

Definition calls `{ExternalTypes} (tr : list event) : list call :=
  map ev_call tr.

Definition is_synthesis `{ExternalTypes} (c : call) : bool :=
  match c with Call_synthesizeSpeech _ _ _ _ => true | _ => false end.

Definition is_decode_params `{ExternalTypes} (c : call) : bool :=
  match c with Call_decode_params _ _ => true | _ => false end.


Definition synthesis_calls `{ExternalTypes} (tr : list event) : list call :=
  List.filter is_synthesis (calls tr).

Definition decode_params_calls `{ExternalTypes} (tr : list event) : list call :=
  List.filter is_decode_params (calls tr).

(** A collaborator reported a failure: some call returned a negative
    value. *)
Definition some_call_failed `{ExternalTypes} (tr : list event) : bool :=
  existsb (fun e => ev_status e <? 0) tr.

(** ** Test doubles

    Stand-ins for the collaborators, used to run the decoder on concrete
    frames. *)

Module Double.

Definition types : ExternalTypes :=
  {| ambe_raw_params := frame; mbe_ext := unit |}.

(** [powf] on small non-negative integral arguments, where it is exact;
    NaN elsewhere. *)
Definition powf_int (x y : F32.float) : F32.float :=
  match F32.to_int x, F32.to_int y with
  | Some a, Some n => if 0 <=? n then F32.of_int (a ^ n) else S754_nan
  | _, _ => S754_nan
  end.

Definition blank : @mbe_parms types :=
  {| w0 := S754_nan; mp_L := 0; Vl := replicate 57 9%Z;
     Ml := replicate 57 S754_nan; mp_ext := (tt : @mbe_ext types) |}.

(** A subframe at fundamental frequency [f] with three harmonics; the
    first voicing band is unvoiced. *)
Definition subframe_at (f : F32.float) : ambe_subframe :=
  {| f0 := f; sf_L := 3; v_uv := [0; 1; 1; 1; 1; 1; 1; 1];
     Mlog := [F32.of_int 0; F32.of_int 1; F32.of_int 2; F32.of_int 3] |}.

Definition f_1_32 : F32.float := F32.round 1 (-5).     (* 0.03125 *)
Definition f_1_16 : F32.float := F32.round 1 (-4).     (* 0.0625 *)

(** Collaborators that all return [st]; the parameter decoder yields the
    pair [sfs]; enhancement leaves the parameters as they are; synthesis
    produces 80 samples, each the harmonic count of the current
    parameters; the move copies the current parameters over the previous
    ones; the tone routine writes nothing. *)
Definition collab (st : Z) (sfs : ambe_subframe * ambe_subframe)
  : @Collaborators types :=
  {| ambe_frame_unpack_raw := fun fr => (st, fr) : Z * @ambe_raw_params types;
     ambe_frame_decode_params := fun _ _ => (st, sfs);
     mbe_spectralAmpEnhance := fun mp => (st, mp);
     mbe_synthesizeSpeech := fun cur prev _ =>
       {| syn_status := st; syn_pcm := replicate 80 (mp_L cur);
          syn_cur := cur; syn_prev := prev |};
     mbe_moveMbeParms := fun cur _ => (st, (cur, cur));
     ambe_decode_tone := fun dec audio _ _ => (st, (audio, dec));
     powf := powf_int;
     mp_auto := (blank, blank) |}.

Definition nominal : @Collaborators types :=
  collab 0 (subframe_at f_1_32, subframe_at f_1_16).

Definition dec0 : @ambe_decoder types :=
  {| mp_prev := blank; sf_prev := subframe_at F32.zero |}.

Definition frame_with (b : byte) : frame := frame_of b (vreplicate 9 Byte.x00).

Definition speech_frame : frame := frame_with Byte.x00.
Definition silence_frame : frame := frame_with Byte.xf8.
Definition tone_frame : frame := frame_with Byte.xfc.

(** A caller's buffer of [n] samples, none of them zero. *)
Definition buffer (n : nat) : list Z := replicate n 7.

(** Collaborators that all report the error [-EINVAL]. *)
Definition failing : @Collaborators types :=
  collab (-22) (subframe_at f_1_32, subframe_at f_1_16).


(** One speech frame decoded with collaborators [K] from the state
    [dec0] into a buffer of 160 samples, starting from an empty trace. *)
Definition run (K : @Collaborators types) (bad : Z)
  : option (@outcome types * list (@event types)) :=
  @ambe_decode_frame types K dec0 (buffer 160) 160 speech_frame bad [].

Definition no_outcome : @outcome types :=
  {| rc := -1; audio_out := []; dec_out := dec0 |}.

Definition outcome_of (K : @Collaborators types) : @outcome types :=
  match run K 0 with Some (r, _) => r | None => no_outcome end.

Definition trace_of (K : @Collaborators types) : list (@event types) :=
  match run K 0 with Some (_, tr) => tr | None => [] end.

(** The run completes, whatever the flag. *)
Definition completes (K : @Collaborators types) : Prop :=
  forall bad,
    @ambe_decode_frame types K dec0 (buffer 160) 160 speech_frame bad []
    = Some (outcome_of K, trace_of K).

End Double.

(** The accesses of a conversion with at least one harmonic are all in
    range. *)
Definition conversion_in_range `{Collaborators} (mp : mbe_parms) (sf : ambe_subframe) : Prop :=
  sf_L sf < Z.of_nat (length (Vl mp))
  /\ sf_L sf < Z.of_nat (length (Ml mp))
  /\ sf_L sf <= Z.of_nat (length (Mlog sf))
  /\ forall i, 1 <= i <= sf_L sf ->
       exists j, F32.to_int (band_position sf i) = Some j
                 /\ 0 <= j < Z.of_nat (length (v_uv sf)).

(** ** Decoder state lifecycle

    [ambe_decode_init] and [ambe_decode_fini].  They take the decoder state
    only and call nothing that is traced: they are plain functions of the
    state. *)

(** What [ambe_decode_init] needs from outside [ambe.c]. *)
Class InitCollaborators `{ExternalTypes} : Type := {
  (* mbe_initMbeParms(&mp): mp as it leaves it *)
  mbe_initMbeParms : mbe_parms -> mbe_parms;
  (* the members of mbe_parms that ambe.c never names, all bytes zero *)
  mbe_ext_zero : mbe_ext
}.

(** [memset(.., 0x00, ..)] over a [struct ambe_subframe]: every member has
    all its bytes cleared, which makes an [int] 0 and a [float] +0.0; the
    arrays keep their declared sizes. *)
Definition zeroed_subframe (sf : ambe_subframe) : ambe_subframe :=
  {| f0 := F32.zero; sf_L := 0;
     v_uv := replicate (length (v_uv sf)) 0;
     Mlog := replicate (length (Mlog sf)) F32.zero |}.

(** The same over an [mbe_parms]. *)
Definition zeroed_parms `{InitCollaborators} (mp : mbe_parms) : mbe_parms :=
  {| w0 := F32.zero; mp_L := 0;
     Vl := replicate (length (Vl mp)) 0;
     Ml := replicate (length (Ml mp)) F32.zero;
     mp_ext := mbe_ext_zero |}.

(** [memset(dec, 0x00, sizeof(struct ambe_decoder))], then
    [mbe_initMbeParms(&dec->mp_prev)]. *)
Definition ambe_decode_init `{InitCollaborators} (dec : ambe_decoder)
  : ambe_decoder :=
  let dec := {| mp_prev := zeroed_parms (mp_prev dec);
                sf_prev := zeroed_subframe (sf_prev dec) |} in
  {| mp_prev := mbe_initMbeParms (mp_prev dec); sf_prev := sf_prev dec |}.

(** Nothing to do. *)
Definition ambe_decode_fini `{ExternalTypes} (dec : ambe_decoder)
  : ambe_decoder := dec.

(** Two decoder states of the same [struct]: their arrays have the same
    sizes. *)
Definition same_layout `{ExternalTypes} (d1 d2 : ambe_decoder) : Prop :=
  length (Vl (mp_prev d1)) = length (Vl (mp_prev d2))
  /\ length (Ml (mp_prev d1)) = length (Ml (mp_prev d2))
  /\ length (v_uv (sf_prev d1)) = length (v_uv (sf_prev d2))
  /\ length (Mlog (sf_prev d1)) = length (Mlog (sf_prev d2)).

(** A test double for [mbe_initMbeParms]: it sets the fundamental
    frequency and harmonic count that mbelib starts from and leaves the
    arrays cleared. *)
Module InitDouble.

Definition init : @InitCollaborators Double.types :=
  {| mbe_initMbeParms := fun mp =>
       {| w0 := F32.round 1 (-4); mp_L := 30; Vl := Vl mp; Ml := Ml mp;
          mp_ext := mp_ext mp |};
     mbe_ext_zero := (tt : @mbe_ext Double.types) |}.

(** A state left over from earlier use. *)
Definition used : @ambe_decoder Double.types :=
  {| mp_prev :=
       {| w0 := F32.of_int 3; mp_L := 12; Vl := replicate 57 1;
          Ml := replicate 57 (F32.of_int 5); mp_ext := (tt : @mbe_ext Double.types) |};
     sf_prev := Double.subframe_at Double.f_1_16 |}.

End InitDouble.

(** Values met when the code is run on the test doubles. *)
Module Runs.

(** The result of converting [sf] into [mp], when it is defined. *)
Definition converted (mp : @mbe_parms Double.types) (sf : ambe_subframe)
  : @mbe_parms Double.types :=
  match @ambe_subframe_to_mbelib Double.types Double.nominal mp sf with
  | Some mp' => mp'
  | None => mp
  end.

Definition sf32 : ambe_subframe := Double.subframe_at Double.f_1_32.

(** [mp[0]] and [mp[1]] after conversion, in the nominal run. *)
Definition c0 : @mbe_parms Double.types :=
  converted (@mp_auto _ Double.nominal).1
    (@decoded_subframes _ Double.nominal Double.dec0 Double.speech_frame).1.

Definition c1 : @mbe_parms Double.types :=
  converted (@mp_auto _ Double.nominal).2
    (@decoded_subframes _ Double.nominal Double.dec0 Double.speech_frame).2.

(** A Silence frame decoded into a buffer of 160 samples. *)
Definition after_silence : @outcome Double.types :=
  {| rc := 0; audio_out := replicate 160 0; dec_out := Double.dec0 |}.

(** A DTX period of 152 samples after it. *)
Definition after_dtx : @outcome Double.types :=
  {| rc := 0; audio_out := replicate 152 0 ++ replicate 8 7;
     dec_out := Double.dec0 |}.

(** A Speech frame decoded right after initialisation. *)
Definition first_run
  : option (@outcome Double.types * list (@event Double.types)) :=
  @ambe_decode_frame Double.types Double.nominal
    (@ambe_decode_init _ InitDouble.init Double.dec0)
    (Double.buffer 160) 160 Double.speech_frame 0 [].

Definition first_outcome : @outcome Double.types :=
  match first_run with Some (r, _) => r | None => Double.no_outcome end.

Definition first_trace : list (@event Double.types) :=
  match first_run with Some (_, tr) => tr | None => [] end.

End Runs.

(** ** Statements that the code is checked against *)

(** The bad-frame flag reaches the parameter decoder: from the arguments
    of the parameter-decode call alone one can tell which flag the entry
    point was given. *)
Definition bad_flag_forwarded `{K : Collaborators} : Prop :=
  exists recover : call -> Z,
    forall dec audio N fr bad r tr,
      bad = 0 \/ bad = 1 ->
      ambe_classify_frame fr = AMBE_SPEECH ->
      ambe_decode_frame dec audio N fr bad [] = Some (r, tr) ->
      exists c, In c (decode_params_calls tr) /\ recover c = bad.

(** A collaborator failure on a Speech frame comes back as a negative
    code. *)
Definition failures_surface `{K : Collaborators} : Prop :=
  forall dec audio N fr bad r tr,
    ambe_classify_frame fr = AMBE_SPEECH ->
    ambe_decode_frame dec audio N fr bad [] = Some (r, tr) ->
    some_call_failed tr = true ->
    rc r < 0.


(** The conversion as a total operation on subframes with L >= 1 and
    f0 > 0: it always produces parameters, with the angular frequency, the
    voicing flags and the magnitudes of harmonics 1..L as computed from
    the subframe. *)
Definition converts_every_positive_subframe `{K : Collaborators} : Prop :=
  forall mp sf,
    1 <= sf_L sf ->
    F32.ltb F32.zero (f0 sf) = true ->
    exists mp',
      ambe_subframe_to_mbelib mp sf = Some mp'
      /\ w0 mp' = F32.mul (f0 sf) (F32.mul F32.two F32.M_PI_f)
      /\ forall i, 1 <= i <= sf_L sf ->
           exists j v mlog,
             F32.floor (F32.mul (F32.mul (F32.of_int (i - 1)) F32.sixteen)
                                (f0 sf)) = Some j
             /\ array_get (v_uv sf) j = Some v
             /\ array_get (Vl mp') i = Some v
             /\ array_get (Mlog sf) (i - 1) = Some mlog
             /\ array_get (Ml mp') i
                = Some (if v =? 0
                        then F32.mul (F32.div (powf F32.two mlog) F32.six)
                               (F32.div F32.c_0_2046 (F32.sqrtf (w0 mp')))
                        else F32.div (powf F32.two mlog) F32.six).

(** The frequency 0.5: with it the second harmonic falls on band
    1 * 16 * 0.5 = 8, past the eight voicing bands of the test subframe. *)
Definition f_1_2 : F32.float := F32.round 1 (-1).

(** * Properties *)

(** ** Frame classification *)

Lemma frame_eta (fr : frame) : fr = frame_of (Vector.hd fr) (Vector.tl fr).
Proof. unfold frame_of. apply Vector.eta. Qed.

Lemma classify_byte_top6 (b : byte) :
  classify_byte b =
    if top6 b =? 63 then AMBE_TONE
    else if top6 b =? 62 then AMBE_SILENCE
    else AMBE_SPEECH.
Proof. destruct b; reflexivity. Qed.

(** C4.  Classification is a total function of the first byte of the frame
    alone: whatever the other nine bytes are, the result is the same, and
    it is Tone when the top six bits of the first byte are 111111,
    Silence when they are 111110 and Speech otherwise; so 0xFC gives Tone,
    0xF8 gives Silence and 0x00 gives Speech.  The classifier takes no
    decoder state. *)
Theorem classify_frame_first_byte (b : byte) (rest rest' : vec byte 9) :
  ambe_classify_frame (frame_of b rest') = ambe_classify_frame (frame_of b rest)
  /\ ambe_classify_frame (frame_of b rest) =
       (if top6 b =? 63 then AMBE_TONE             (* 111111 *)
        else if top6 b =? 62 then AMBE_SILENCE     (* 111110 *)
        else AMBE_SPEECH)
  /\ ambe_classify_frame (frame_of Byte.xfc rest) = AMBE_TONE
  /\ ambe_classify_frame (frame_of Byte.xf8 rest) = AMBE_SILENCE
  /\ ambe_classify_frame (frame_of Byte.x00 rest) = AMBE_SPEECH.
Proof.
  repeat split; try reflexivity.
  unfold ambe_classify_frame, frame_of; simpl.
  apply classify_byte_top6.
Qed.

(** ** Buffers *)

Lemma memset_zero_samples (audio : list Z) (n : Z) :
  0 <= n <= Z.of_nat (length audio) ->
  memset_zero audio (sizeof_int16_t * n)
  = Some (replicate (Z.to_nat n) 0 ++ drop (Z.to_nat n) audio).
Proof.
  intros Hn. unfold memset_zero, sizeof_int16_t.
  rewrite (Z.mul_comm 2 n), Z.div_mul, Z.mod_mul by lia.
  assert (H1 : (0 <=? n * 2) = true) by (apply Z.leb_le; lia).
  assert (H2 : (n <=? Z.of_nat (length audio)) = true) by (apply Z.leb_le; lia).
  rewrite H1, H2. reflexivity.
Qed.

Lemma memset_zero_overrun (audio : list Z) (n : Z) :
  Z.of_nat (length audio) < n ->
  memset_zero audio (sizeof_int16_t * n) = None.
Proof.
  intros Hn. unfold memset_zero, sizeof_int16_t.
  rewrite (Z.mul_comm 2 n), Z.div_mul by lia.
  assert (H2 : (n <=? Z.of_nat (length audio)) = false) by (apply Z.leb_gt; lia).
  rewrite H2, andb_false_r. reflexivity.
Qed.

(** After clearing [n] samples the buffer has its length, zeros below [n]
    and its former contents from [n] on. *)
Lemma cleared_buffer (audio : list Z) (n : Z) :
  0 <= n <= Z.of_nat (length audio) ->
  let audio' := replicate (Z.to_nat n) 0 ++ drop (Z.to_nat n) audio in
  length audio' = length audio
  /\ (forall i, 0 <= i < n -> array_get audio' i = Some 0)
  /\ (forall i, n <= i -> array_get audio' i = array_get audio i).
Proof.
  intros Hn audio'. subst audio'. repeat split.
  - rewrite length_app, length_replicate, length_drop. lia.
  - intros i Hi. unfold array_get.
    destruct (Z.leb_spec 0 i); [|lia].
    rewrite lookup_app_l by (rewrite length_replicate; lia).
    apply lookup_replicate_2. lia.
  - intros i Hi. unfold array_get.
    destruct (Z.leb_spec 0 i); [|lia].
    rewrite lookup_app_r by (rewrite length_replicate; lia).
    rewrite length_replicate, lookup_drop. f_equal. lia.
Qed.

(** ** The DTX filler and the silence path *)

Section Fillers.
Context `{K : Collaborators}.

Lemma ambe_decode_dtx_run dec audio N tr :
  0 <= N <= Z.of_nat (length audio) ->
  ambe_decode_dtx dec audio N tr
  = Some ({| rc := 0;
             audio_out := replicate (Z.to_nat N) 0 ++ drop (Z.to_nat N) audio;
             dec_out := dec |}, tr).
Proof.
  intros HN. unfold ambe_decode_dtx, bind, defined, ret.
  rewrite memset_zero_samples by assumption. reflexivity.
Qed.

(** The silence path clears 160 samples, whatever [N] is. *)
Lemma silence_run dec audio N fr bad tr :
  ambe_classify_frame fr = AMBE_SILENCE ->
  ambe_decode_frame dec audio N fr bad tr
  = if 160 <=? Z.of_nat (length audio)
    then Some ({| rc := 0; audio_out := replicate 160 0 ++ drop 160 audio;
                  dec_out := dec |}, tr)
    else None.
Proof.
  intros Hc. unfold ambe_decode_frame. rewrite Hc.
  unfold bind, defined, ret. rewrite (Z.mul_comm 160).
  destruct (Z.leb_spec 160 (Z.of_nat (length audio))).
  - rewrite memset_zero_samples by lia. reflexivity.
  - rewrite memset_zero_overrun by lia. reflexivity.
Qed.

(** C9.  For every decoder state and every N from 152 to 168, on a buffer
    that holds N samples, [ambe_decode_dtx] returns 0, makes no call,
    leaves the decoder state alone and overwrites exactly the first N
    samples with zero: the buffer keeps its length, every sample below N
    is 0 and every sample from N on is what it was. *)
Theorem dtx_never_fails_and_clears_N dec audio N tr :
  152 <= N <= 168 ->
  N <= Z.of_nat (length audio) ->
  exists audio',
    ambe_decode_dtx dec audio N tr
    = Some ({| rc := 0; audio_out := audio'; dec_out := dec |}, tr)
    /\ length audio' = length audio
    /\ (forall i, 0 <= i < N -> array_get audio' i = Some 0)
    /\ (forall i, N <= i -> array_get audio' i = array_get audio i).
Proof.
  intros HN Hlen.
  exists (replicate (Z.to_nat N) 0 ++ drop (Z.to_nat N) audio). split.
  - apply ambe_decode_dtx_run. lia.
  - apply cleared_buffer. lia.
Qed.

(** C6.  For a Silence frame the decoder state after the call is the
    state before it, and no collaborator is called: this holds for every
    call that completes, and the call completes when the buffer holds the
    160 samples that are cleared.  The state is not read either: started
    from any other state, the call returns the same code and the same
    audio, and hands that other state back. *)
Theorem silence_keeps_decoder_state dec audio N fr bad tr :
  ambe_classify_frame fr = AMBE_SILENCE ->
  (forall r tr', ambe_decode_frame dec audio N fr bad tr = Some (r, tr') ->
     dec_out r = dec /\ tr' = tr
     /\ forall dec', ambe_decode_frame dec' audio N fr bad tr
                     = Some ({| rc := rc r; audio_out := audio_out r;
                                dec_out := dec' |}, tr))
  /\ (160 <= Z.of_nat (length audio) ->
      exists r, ambe_decode_frame dec audio N fr bad tr = Some (r, tr)).
Proof.
  intros Hc. split.
  - intros r tr' Hrun. rewrite silence_run in Hrun by assumption.
    destruct (160 <=? Z.of_nat (length audio)) eqn:Hlen; [|discriminate].
    injection Hrun as <- <-. simpl. repeat split.
    intros dec'. rewrite silence_run by assumption. rewrite Hlen. reflexivity.
  - intros Hlen. rewrite silence_run by assumption.
    destruct (Z.leb_spec 160 (Z.of_nat (length audio))); [|lia].
    eexists. reflexivity.
Qed.

End Fillers.

(** ** The speech path *)

Section SpeechPath.
Context `{K : Collaborators}.

(** A completed speech decode went through every step. *)
Lemma speech_run_inv dec audio N fr bad tr r tr' :
  ambe_decode_speech dec audio N fr bad tr = Some (r, tr') ->
  exists c0 c1 audio1 audio2,
    ambe_subframe_to_mbelib mp_auto.1 (decoded_subframes dec fr).1 = Some c0
    /\ ambe_subframe_to_mbelib mp_auto.2 (decoded_subframes dec fr).2 = Some c1
    /\ store_samples audio 0 (syn_pcm (first_synthesis dec c0)) = Some audio1
    /\ store_samples audio1 80 (syn_pcm (second_synthesis dec c0 c1))
       = Some audio2
    /\ r = {| rc := 0; audio_out := audio2;
              dec_out := {| mp_prev := (final_move dec c0 c1).2.2;
                            sf_prev := (decoded_subframes dec fr).2 |} |}
    /\ tr' = tr ++ speech_events dec fr c0 c1.
Proof.
  unfold ambe_decode_speech, call_unpack_raw, call_decode_params,
    call_spectralAmpEnhance, call_synthesizeSpeech, call_moveMbeParms,
    bind, extern, defined, ret.
  unfold decoded_subframes, unpacked.
  destruct (ambe_frame_unpack_raw fr) as [st rp] eqn:Hu; simpl.
  destruct (ambe_frame_decode_params (sf_prev dec) rp) as [st' [sf0 sf1]]
    eqn:Hd; simpl.
  destruct (ambe_subframe_to_mbelib mp_auto.1 sf0) as [c0|] eqn:H0;
    [|discriminate].
  destruct (ambe_subframe_to_mbelib mp_auto.2 sf1) as [c1|] eqn:H1;
    [|discriminate].
  destruct (mbe_spectralAmpEnhance c0) as [st0 e0] eqn:He0.
  destruct (mbe_spectralAmpEnhance c1) as [st1 e1] eqn:He1.
  destruct (store_samples audio 0 (syn_pcm (mbe_synthesizeSpeech e0 (mp_prev dec) 2)))
    as [audio1|] eqn:Ha1; [|discriminate].
  destruct (store_samples audio1 80 _) as [audio2|] eqn:Ha2; [|discriminate].
  destruct (mbe_moveMbeParms _ _) as [stm [mc mpp]] eqn:Hm.
  intros Hrun. injection Hrun as <- <-.
  exists c0, c1, audio1, audio2.
  unfold speech_events, final_move, second_synthesis, first_synthesis,
    enhanced, unpacked.
  rewrite ?Hu, ?He0, ?He1; simpl. rewrite ?Hd, ?Hm; simpl.
  repeat split; try assumption.
  rewrite <- !app_assoc. reflexivity.
Qed.

(** Conversely, the decode completes as soon as both conversions are
    defined and the buffer has room for what the two synthesis calls
    store. *)
Lemma speech_run_intro dec audio N fr bad tr c0 c1 audio1 audio2 :
  ambe_subframe_to_mbelib mp_auto.1 (decoded_subframes dec fr).1 = Some c0 ->
  ambe_subframe_to_mbelib mp_auto.2 (decoded_subframes dec fr).2 = Some c1 ->
  store_samples audio 0 (syn_pcm (first_synthesis dec c0)) = Some audio1 ->
  store_samples audio1 80 (syn_pcm (second_synthesis dec c0 c1))
  = Some audio2 ->
  ambe_decode_speech dec audio N fr bad tr
  = Some ({| rc := 0; audio_out := audio2;
             dec_out := {| mp_prev := (final_move dec c0 c1).2.2;
                           sf_prev := (decoded_subframes dec fr).2 |} |},
          tr ++ speech_events dec fr c0 c1).
Proof.
  unfold decoded_subframes, speech_events, final_move, second_synthesis,
    first_synthesis, enhanced, unpacked.
  unfold ambe_decode_speech, call_unpack_raw, call_decode_params,
    call_spectralAmpEnhance, call_synthesizeSpeech, call_moveMbeParms,
    bind, extern, defined, ret.
  destruct (ambe_frame_unpack_raw fr) as [st rp]; simpl.
  destruct (ambe_frame_decode_params (sf_prev dec) rp) as [st' [sf0 sf1]];
    simpl.
  intros -> ->.
  destruct (mbe_spectralAmpEnhance c0) as [st0 e0].
  destruct (mbe_spectralAmpEnhance c1) as [st1 e1]. simpl.
  intros -> ->.
  destruct (mbe_moveMbeParms _ _) as [stm [mc mpp]]. simpl.
  rewrite <- !app_assoc. reflexivity.
Qed.

(** The tone path hands over to [ambe_decode_tone] and returns what it
    returned. *)
Lemma tone_run dec audio N fr bad tr :
  ambe_classify_frame fr = AMBE_TONE ->
  ambe_decode_frame dec audio N fr bad tr
  = Some ({| rc := (ambe_decode_tone dec audio N fr).1;
             audio_out := (ambe_decode_tone dec audio N fr).2.1;
             dec_out := (ambe_decode_tone dec audio N fr).2.2 |},
          tr ++ [ {| ev_call := Call_decode_tone dec N fr;
                     ev_status := (ambe_decode_tone dec audio N fr).1 |} ]).
Proof.
  intros Hc. unfold ambe_decode_frame. rewrite Hc.
  unfold bind, call_decode_tone, extern, ret.
  destruct (ambe_decode_tone dec audio N fr) as [st [a d]]. reflexivity.
Qed.

Lemma speech_frame_run dec audio N fr bad :
  ambe_classify_frame fr = AMBE_SPEECH ->
  ambe_decode_frame dec audio N fr bad = ambe_decode_speech dec audio N fr bad.
Proof. intros Hc. unfold ambe_decode_frame. rewrite Hc. reflexivity. Qed.

End SpeechPath.

(** ** Arrays *)

Lemma array_set_Some {A} (a a' : list A) (i : Z) (x : A) :
  array_set a i x = Some a' <->
  0 <= i < Z.of_nat (length a) /\ a' = <[Z.to_nat i := x]> a.
Proof.
  unfold array_set.
  destruct (Z.leb_spec 0 i), (Z.ltb_spec i (Z.of_nat (length a))); simpl;
    split; try (intros [? ?]; lia); try discriminate.
  - intros [= <-]. split; [lia | reflexivity].
  - intros [_ ->]. reflexivity.
Qed.

Lemma array_set_in_range {A} (a : list A) (i : Z) (x : A) :
  0 <= i < Z.of_nat (length a) ->
  array_set a i x = Some (<[Z.to_nat i := x]> a).
Proof. intros Hi. apply array_set_Some. auto. Qed.

Lemma array_get_insert_eq {A} (a : list A) (i : Z) (x : A) :
  0 <= i < Z.of_nat (length a) ->
  array_get (<[Z.to_nat i := x]> a) i = Some x.
Proof.
  intros Hi. unfold array_get. destruct (Z.leb_spec 0 i); [|lia].
  apply list_lookup_insert_eq. lia.
Qed.

Lemma array_get_insert_ne {A} (a : list A) (i k : Z) (x : A) :
  0 <= i -> i <> k ->
  array_get (<[Z.to_nat i := x]> a) k = array_get a k.
Proof.
  intros Hi Hne. unfold array_get. destruct (Z.leb_spec 0 k); [|reflexivity].
  apply list_lookup_insert_ne. lia.
Qed.

Lemma array_get_bound {A} (a : list A) (i : Z) (x : A) :
  array_get a i = Some x -> 0 <= i < Z.of_nat (length a).
Proof.
  unfold array_get. destruct (Z.leb_spec 0 i); [|discriminate].
  intros Hl. apply lookup_lt_Some in Hl. lia.
Qed.

Lemma array_get_defined {A} (a : list A) (i : Z) :
  0 <= i < Z.of_nat (length a) -> exists x, array_get a i = Some x.
Proof.
  intros Hi. unfold array_get. destruct (Z.leb_spec 0 i); [|lia].
  apply lookup_lt_is_Some_2. lia.
Qed.

(** ** Signs of float results *)

Module F32Facts.

Lemma binary_round_aux_false m e l :
  F32.nan_or_nonneg (binary_round_aux F32.prec F32.emax false m e l).
Proof.
  unfold binary_round_aux.
  destruct (shr_fexp _ _ m e l) as [mrs' e'].
  destruct (shr_fexp _ _ _ e' loc_Exact) as [mrs'' e''].
  destruct (shr_m mrs''); [right; reflexivity | | left; reflexivity].
  destruct (e'' <=? F32.emax - F32.prec)%Z; right; reflexivity.
Qed.

Lemma of_int_nonneg n : 0 <= n -> F32.nan_or_nonneg (F32.of_int n).
Proof.
  intros Hn. unfold F32.of_int, F32.round, binary_normalize.
  destruct n as [|p|p]; [right; reflexivity | | lia].
  unfold binary_round. destruct (shl_align _ _ _).
  apply binary_round_aux_false.
Qed.

Lemma mul_nonneg x y :
  F32.nan_or_nonneg x -> F32.nan_or_nonneg y ->
  F32.nan_or_nonneg (F32.mul x y).
Proof.
  intros [-> | Hx] [-> | Hy]; try (left; reflexivity).
  - left. destruct x; reflexivity.
  - destruct x as [[]|[]| |[] mx ex], y as [[]|[]| |[] my ey];
      try discriminate; try (right; reflexivity); try (left; reflexivity).
    apply binary_round_aux_false.
Qed.

Lemma positive_nonneg x : F32.ltb F32.zero x = true -> F32.nan_or_nonneg x.
Proof.
  destruct x as [s|[]| |[] m e]; try discriminate; right; reflexivity.
Qed.

(** On a float that is not below zero, the cast to [int] is the floor. *)
Lemma to_int_floor x j :
  F32.nan_or_nonneg x -> F32.to_int x = Some j -> F32.floor x = Some j.
Proof.
  intros [-> | Hx]; [discriminate|].
  destruct x as [s|s| |[] m e]; try discriminate; simpl.
  - trivial.
  - unfold F32.trunc_mag.
    destruct (_ && _); [|discriminate].
    intros [= <-]. reflexivity.
Qed.

(** *** Positive results

    Facts about the rounding of [SpecFloat], needed to see that the angular
    frequency of a positive fundamental frequency is positive. *)









Section Rounding.
Variables prec emax : Z.
Hypothesis Hprec : 0 < prec.



End Rounding.

(** *** The angular frequency *)







End F32Facts.

(** ** The subframe converter *)

Section ConverterFacts.
Context `{K : Collaborators}.

(** What one iteration stores at index [i]. *)
Lemma harmonic_step_Some unvc sf i mp mp' :
  harmonic_step unvc sf i mp = Some mp' <->
  exists j v mlog,
    F32.to_int (band_position sf i) = Some j
    /\ array_get (v_uv sf) j = Some v
    /\ array_get (Mlog sf) (i - 1) = Some mlog
    /\ 0 <= i < Z.of_nat (length (Vl mp))
    /\ 0 <= i < Z.of_nat (length (Ml mp))
    /\ mp' = {| w0 := w0 mp; mp_L := mp_L mp;
                Vl := <[Z.to_nat i := v]> (Vl mp);
                Ml := <[Z.to_nat i :=
                          if v =? 0 then F32.mul (magnitude mlog) unvc
                          else magnitude mlog]> (Ml mp);
                mp_ext := mp_ext mp |}.
Proof.
  unfold harmonic_step. split.
  - intros Hstep.
    destruct (F32.to_int (band_position sf i)) as [j|] eqn:Hj;
      [|discriminate].
    cbn [mbind option_bind] in Hstep.
    destruct (array_get (v_uv sf) j) as [v|] eqn:Hv; [|discriminate].
    cbn [mbind option_bind] in Hstep.
    destruct (array_set (Vl mp) i v) as [vl|] eqn:Hvl; [|discriminate].
    apply array_set_Some in Hvl as [HiV ->].
    cbn [mbind option_bind] in Hstep.
    destruct (array_get (Mlog sf) (i - 1)) as [mlog|] eqn:Hm;
      [|discriminate].
    cbn [mbind option_bind] in Hstep.
    destruct (array_set (Ml _) i (magnitude mlog)) as [ml|] eqn:Hml;
      [|discriminate].
    apply array_set_Some in Hml as [HiM ->].
    cbn [mbind option_bind set_Ml set_Vl Vl Ml] in Hstep, HiM.
    rewrite !array_get_insert_eq in Hstep by assumption.
    cbn [mbind option_bind] in Hstep.
    rewrite array_set_in_range in Hstep
      by (rewrite length_insert; assumption).
    cbn [mbind option_bind] in Hstep.
    exists j, v, mlog. repeat (split; [reflexivity || assumption || lia|]).
    revert Hstep. unfold set_Ml, set_Vl; simpl.
    destruct (v =? 0); intros [= <-]; [|reflexivity].
    rewrite list_insert_insert_eq. reflexivity.
  - intros (j & v & mlog & Hj & Hv & Hm & HiV & HiM & ->).
    rewrite Hj. cbn [mbind option_bind]. rewrite Hv. cbn [mbind option_bind].
    rewrite array_set_in_range by assumption. cbn [mbind option_bind].
    rewrite Hm. cbn [mbind option_bind].
    unfold set_Ml, set_Vl; simpl.
    rewrite array_set_in_range by assumption. cbn [mbind option_bind].
    rewrite !array_get_insert_eq by assumption. cbn [mbind option_bind].
    rewrite array_set_in_range by (rewrite length_insert; assumption).
    cbn [mbind option_bind].
    destruct (v =? 0); [|reflexivity].
    rewrite list_insert_insert_eq. reflexivity.
Qed.

(** The loop over [i0 .. i0+n-1]: the scalar members and the array sizes
    are kept, every index in the range holds what its iteration stored,
    every other index is untouched. *)
Lemma harmonic_loop_Some n unvc sf : forall i0 mp mp',
  0 <= i0 ->
  harmonic_loop n unvc sf i0 mp = Some mp' ->
  w0 mp' = w0 mp /\ mp_L mp' = mp_L mp /\ mp_ext mp' = mp_ext mp
  /\ length (Vl mp') = length (Vl mp) /\ length (Ml mp') = length (Ml mp)
  /\ (forall i, i0 <= i < i0 + Z.of_nat n ->
        exists j v mlog,
          F32.to_int (band_position sf i) = Some j
          /\ array_get (v_uv sf) j = Some v
          /\ array_get (Mlog sf) (i - 1) = Some mlog
          /\ array_get (Vl mp') i = Some v
          /\ array_get (Ml mp') i
             = Some (if v =? 0 then F32.mul (magnitude mlog) unvc
                     else magnitude mlog))
  /\ (forall i, i < i0 \/ i0 + Z.of_nat n <= i ->
        array_get (Vl mp') i = array_get (Vl mp) i
        /\ array_get (Ml mp') i = array_get (Ml mp) i).
Proof.
  induction n as [|n IH]; intros i0 mp mp' Hi0 Hloop.
  - injection Hloop as <-. repeat split; intros; lia.
  - simpl in Hloop.
    destruct (harmonic_step unvc sf i0 mp) as [mp1|] eqn:Hstep;
      [|discriminate].
    simpl in Hloop.
    apply harmonic_step_Some in Hstep
      as (j & v & mlog & Hj & Hv & Hm & HiV & HiM & ->).
    apply IH in Hloop as (Hw & HL & He & HlV & HlM & Hin & Hout); [|lia].
    cbn [Vl Ml w0 mp_L mp_ext] in *.
    rewrite length_insert in HlV. rewrite length_insert in HlM.
    repeat split; try assumption.
    + intros i Hi. destruct (Z.eq_dec i i0) as [->|Hne].
      * exists j, v, mlog. destruct (Hout i0) as [HV HM]; [lia|].
        rewrite HV, HM, !array_get_insert_eq by assumption. auto.
      * apply Hin. lia.
    + destruct (Hout i) as [HV _]; [lia|].
      rewrite HV. apply array_get_insert_ne; lia.
    + destruct (Hout i) as [_ HM]; [lia|].
      rewrite HM. apply array_get_insert_ne; lia.
Qed.

(** The loop is defined as soon as every access it makes is inside its
    array. *)
Lemma harmonic_loop_defined n unvc sf : forall i0 mp,
  0 <= i0 ->
  i0 + Z.of_nat n <= Z.of_nat (length (Vl mp)) ->
  i0 + Z.of_nat n <= Z.of_nat (length (Ml mp)) ->
  i0 - 1 + Z.of_nat n <= Z.of_nat (length (Mlog sf)) ->
  (forall i, i0 <= i < i0 + Z.of_nat n ->
     exists j, F32.to_int (band_position sf i) = Some j
               /\ 0 <= j < Z.of_nat (length (v_uv sf))) ->
  1 <= i0 ->
  exists mp', harmonic_loop n unvc sf i0 mp = Some mp'.
Proof.
  induction n as [|n IH]; intros i0 mp Hi0 HV HM HMlog Hidx H1.
  - eexists. reflexivity.
  - destruct (Hidx i0) as (j & Hj & Hjb); [lia|].
    destruct (array_get_defined (v_uv sf) j Hjb) as [v Hv].
    destruct (array_get_defined (Mlog sf) (i0 - 1)) as [mlog Hm]; [lia|].
    simpl.
    assert (Hstep : harmonic_step unvc sf i0 mp
              = Some {| w0 := w0 mp; mp_L := mp_L mp;
                        Vl := <[Z.to_nat i0 := v]> (Vl mp);
                        Ml := <[Z.to_nat i0 :=
                                  if v =? 0 then F32.mul (magnitude mlog) unvc
                                  else magnitude mlog]> (Ml mp);
                        mp_ext := mp_ext mp |}).
    { apply harmonic_step_Some. exists j, v, mlog.
      repeat split; try assumption; lia. }
    rewrite Hstep. simpl.
    apply IH; simpl; rewrite ?length_insert; try lia.
    intros i Hi. apply Hidx. lia.
Qed.

End ConverterFacts.

Section Conversion.
Context `{K : Collaborators}.

Lemma band_position_sign sf i :
  1 <= i -> F32.ltb F32.zero (f0 sf) = true ->
  F32.nan_or_nonneg (band_position sf i).
Proof.
  intros Hi Hf. unfold band_position.
  apply F32Facts.mul_nonneg; [apply F32Facts.mul_nonneg|].
  - apply F32Facts.of_int_nonneg. lia.
  - right. reflexivity.
  - apply F32Facts.positive_nonneg. assumption.
Qed.

(** C8, as the code has it.  The converter checks no bound, so the claim
    holds under preconditions: for a subframe with L >= 1 and f0 > 0 whose
    accesses stay inside the arrays (L is below the sizes of [Vl] and
    [Ml] and at most the size of [Mlog], and for every harmonic the band
    position casts to an [int] that is an index of [v_uv]), the converter
    returns parameters with w0 = f0 * (2 * pi) and the same L, and for
    each harmonic i from 1 to L: the voicing flag [Vl[i]] is the entry of
    [v_uv] at the floor of (i-1) * 16 * f0, the magnitude [Ml[i]] is
    2^(Mlog[i-1]) / 6 when that flag is set, and 2^(Mlog[i-1]) / 6 times
    0.2046 / sqrt(w0) when it is clear.  All arithmetic is the [float]
    arithmetic of the C expressions. *)
Theorem subframe_conversion mp sf :
  1 <= sf_L sf ->
  F32.ltb F32.zero (f0 sf) = true ->
  sf_L sf < Z.of_nat (length (Vl mp)) ->
  sf_L sf < Z.of_nat (length (Ml mp)) ->
  sf_L sf <= Z.of_nat (length (Mlog sf)) ->
  (forall i, 1 <= i <= sf_L sf ->
     exists j, F32.to_int (band_position sf i) = Some j
               /\ 0 <= j < Z.of_nat (length (v_uv sf))) ->
  exists mp',
    ambe_subframe_to_mbelib mp sf = Some mp'
    /\ w0 mp' = F32.mul (f0 sf) (F32.mul F32.two F32.M_PI_f)
    /\ mp_L mp' = sf_L sf
    /\ forall i, 1 <= i <= sf_L sf ->
         exists j v mlog,
           F32.floor (F32.mul (F32.mul (F32.of_int (i - 1)) F32.sixteen)
                              (f0 sf)) = Some j
           /\ array_get (v_uv sf) j = Some v
           /\ array_get (Vl mp') i = Some v
           /\ array_get (Mlog sf) (i - 1) = Some mlog
           /\ array_get (Ml mp') i
              = Some (if v =? 0
                      then F32.mul (F32.div (powf F32.two mlog) F32.six)
                             (F32.div F32.c_0_2046 (F32.sqrtf (w0 mp')))
                      else F32.div (powf F32.two mlog) F32.six).
Proof.
  intros HL Hf HV HM HMlog Hidx.
  unfold ambe_subframe_to_mbelib. cbn [w0 mp_L set_w0_L].
  set (mp0 := set_w0_L mp _ _).
  set (unvc := F32.div _ _).
  destruct (harmonic_loop_defined (Z.to_nat (sf_L sf)) unvc sf 1 mp0)
    as [mp' Hloop]; try (cbn [Vl Ml mp0 set_w0_L]; lia).
  { intros i Hi. apply Hidx. lia. }
  exists mp'. split; [assumption|].
  apply harmonic_loop_Some in Hloop
    as (Hw & HLm & _ & _ & _ & Hin & _); [|lia].
  cbn [w0 mp_L mp0 set_w0_L] in Hw, HLm.
  repeat split; try assumption.
  intros i Hi. destruct (Hin i) as (j & v & mlog & Hj & Hv & Hm & HVl & HMl);
    [lia|].
  exists j, v, mlog. repeat split; try assumption.
  - apply F32Facts.to_int_floor; [|exact Hj].
    apply band_position_sign; [lia | assumption].
  - rewrite HMl, Hw. reflexivity.
Qed.

End Conversion.

(** ** Reading the trace of a speech decode *)

Section SpeechTrace.
Context `{K : Collaborators}.

Lemma synthesis_calls_app tr tr' :
  synthesis_calls (tr ++ tr') = synthesis_calls tr ++ synthesis_calls tr'.
Proof.
  unfold synthesis_calls, calls. rewrite map_app. apply List.filter_app.
Qed.

Lemma decode_params_calls_app tr tr' :
  decode_params_calls (tr ++ tr')
  = decode_params_calls tr ++ decode_params_calls tr'.
Proof.
  unfold decode_params_calls, calls. rewrite map_app. apply List.filter_app.
Qed.

Lemma synthesis_calls_speech dec fr c0 c1 :
  synthesis_calls (speech_events dec fr c0 c1)
  = [ Call_synthesizeSpeech 0 (Mp0, enhanced c0) (DecMpPrev, mp_prev dec) 2;
      Call_synthesizeSpeech 80 (Mp1, enhanced c1)
        (Mp0, syn_cur (first_synthesis dec c0)) 2 ].
Proof. reflexivity. Qed.

Lemma decode_params_calls_speech dec fr c0 c1 :
  decode_params_calls (speech_events dec fr c0 c1)
  = [ Call_decode_params (sf_prev dec) (unpacked fr) ].
Proof. reflexivity. Qed.

End SpeechTrace.

(** ** The speech path: state carried from subframe to subframe *)

Section SpeechClaims.
Context `{K : Collaborators}.

(** C3.  Provided [mbe_moveMbeParms] copies its first argument over its
    second, every completed decode of a Speech frame makes exactly two
    synthesis calls.  The first works on [mp[0]] (subframe 0 converted
    and enhanced) with [dec->mp_prev], as the session holds it on entry,
    as predecessor.  The second works on [mp[1]] with [mp[0]] as the
    first call left it as predecessor, not the session's state.  On
    return the session's synthesis state is [mp[1]] as the second call
    left it and the session's subframe is subframe 1; and that synthesis
    state is the predecessor handed to the first synthesis call of the
    next Speech frame. *)
Theorem speech_synthesis_chaining dec audio N fr bad tr r tr' :
  (forall cur prev, (mbe_moveMbeParms cur prev).2.2 = cur) ->
  ambe_classify_frame fr = AMBE_SPEECH ->
  ambe_decode_frame dec audio N fr bad tr = Some (r, tr') ->
  exists c0 c1,
    ambe_subframe_to_mbelib mp_auto.1 (decoded_subframes dec fr).1 = Some c0
    /\ ambe_subframe_to_mbelib mp_auto.2 (decoded_subframes dec fr).2 = Some c1
    /\ let s0 := mbe_synthesizeSpeech (enhanced c0) (mp_prev dec) 2 in
       let s1 := mbe_synthesizeSpeech (enhanced c1) (syn_cur s0) 2 in
       synthesis_calls tr'
       = synthesis_calls tr
         ++ [ Call_synthesizeSpeech 0 (Mp0, enhanced c0)
                (DecMpPrev, mp_prev dec) 2;
              Call_synthesizeSpeech 80 (Mp1, enhanced c1)
                (Mp0, syn_cur s0) 2 ]
       /\ mp_prev (dec_out r) = syn_cur s1
       /\ sf_prev (dec_out r) = (decoded_subframes dec fr).2
       /\ forall audio2 N2 fr2 bad2 r2 tr2,
            ambe_classify_frame fr2 = AMBE_SPEECH ->
            ambe_decode_frame (dec_out r) audio2 N2 fr2 bad2 tr'
            = Some (r2, tr2) ->
            exists d0 next,
              synthesis_calls tr2
              = synthesis_calls tr'
                ++ [ Call_synthesizeSpeech 0 (Mp0, d0)
                       (DecMpPrev, syn_cur s1) 2; next ].
Proof.
  intros Hmove Hc Hrun. rewrite speech_frame_run in Hrun by assumption.
  apply speech_run_inv in Hrun
    as (c0 & c1 & audio1 & audio2 & H0 & H1 & _ & _ & -> & ->).
  exists c0, c1. split; [assumption|]. split; [assumption|].
  cbv zeta. cbn [dec_out mp_prev sf_prev].
  unfold final_move. rewrite Hmove.
  split; [|split; [reflexivity|split; [reflexivity|]]].
  - rewrite synthesis_calls_app, synthesis_calls_speech. reflexivity.
  - intros audio' N2 fr2 bad2 r2 tr2 Hc2 Hrun2.
    rewrite speech_frame_run in Hrun2 by assumption.
    apply speech_run_inv in Hrun2
      as (d0 & d1 & _ & _ & _ & _ & _ & _ & _ & ->).
    rewrite (synthesis_calls_app (tr ++ _)), synthesis_calls_speech.
    cbn [mp_prev]. eexists _, _. reflexivity.
Qed.

(** C2, as the code has it.  On a Speech frame the flag [bad] goes no
    further than [ambe_decode_speech]: the parameter decoder is called
    once, with the session's previous subframe and the unpacked raw
    parameters and nothing else, and the calls made, the audio, the
    return code and the final state are the same whatever the flag
    is. *)
Theorem bad_flag_not_forwarded dec audio N fr bad tr r tr' :
  ambe_classify_frame fr = AMBE_SPEECH ->
  ambe_decode_frame dec audio N fr bad tr = Some (r, tr') ->
  decode_params_calls tr'
  = decode_params_calls tr
    ++ [ Call_decode_params (sf_prev dec) (ambe_frame_unpack_raw fr).2 ]
  /\ forall bad', ambe_decode_frame dec audio N fr bad' tr = Some (r, tr').
Proof.
  intros Hc Hrun. split.
  - rewrite speech_frame_run in Hrun by assumption.
    apply speech_run_inv in Hrun
      as (c0 & c1 & _ & _ & _ & _ & _ & _ & _ & ->).
    rewrite decode_params_calls_app, decode_params_calls_speech.
    reflexivity.
  - intros bad'. exact Hrun.
Qed.

(** C5, as the code has it.  On a Speech frame the entry point returns 0
    whenever it returns: what the collaborators report is recorded in
    the trace and otherwise discarded.  A code other than 0 can only
    come from a Tone frame, where it is the one [ambe_decode_tone]
    returned. *)
Theorem speech_always_reports_success dec audio N fr bad tr r tr' :
  ambe_decode_frame dec audio N fr bad tr = Some (r, tr') ->
  (ambe_classify_frame fr = AMBE_SPEECH -> rc r = 0)
  /\ (rc r <> 0 ->
      ambe_classify_frame fr = AMBE_TONE
      /\ rc r = (ambe_decode_tone dec audio N fr).1).
Proof.
  intros Hrun. split.
  - intros Hc. rewrite speech_frame_run in Hrun by assumption.
    apply speech_run_inv in Hrun
      as (c0 & c1 & a1 & a2 & _ & _ & _ & _ & -> & _).
    reflexivity.
  - intros Hrc. destruct (ambe_classify_frame fr) eqn:Hc.
    + rewrite speech_frame_run in Hrun by assumption.
      apply speech_run_inv in Hrun
        as (c0 & c1 & a1 & a2 & _ & _ & _ & _ & -> & _).
      contradiction Hrc. reflexivity.
    + rewrite silence_run in Hrun by assumption.
      destruct (160 <=? _); [|discriminate].
      injection Hrun as <- _. contradiction Hrc. reflexivity.
    + unfold ambe_decode_frame in Hrun. rewrite Hc in Hrun.
      unfold bind, call_decode_tone, extern, ret in Hrun.
      destruct (ambe_decode_tone dec audio N fr) as [st [a d]].
      injection Hrun as <- _. split; reflexivity.
Qed.

(** C10.  The bad-frame flag has no effect: for every decoder state,
    buffer, frame and sample count the entry point does the same with
    any two values of the flag -- same definedness, same audio, same
    return code, same final state, same calls. *)
Theorem bad_flag_noninterference dec audio N fr bad1 bad2 tr :
  ambe_decode_frame dec audio N fr bad1 tr
  = ambe_decode_frame dec audio N fr bad2 tr.
Proof.
  unfold ambe_decode_frame.
  destruct (ambe_classify_frame fr); reflexivity.
Qed.

End SpeechClaims.

(** ** Zero fundamental frequency *)

Section ZeroFrequency.
Context `{K : Collaborators}.





End ZeroFrequency.

(** ** The code run on concrete frames *)

Lemma nominal_run : Double.completes Double.nominal.
Proof. intros bad. vm_compute. reflexivity. Qed.

Lemma failing_run : Double.completes Double.failing.
Proof. intros bad. vm_compute. reflexivity. Qed.


(** A Tone frame goes to [ambe_decode_tone] and nowhere else. *)
Lemma nominal_tone_run :
  @ambe_decode_frame _ Double.nominal Double.dec0 (Double.buffer 160) 160
    Double.tone_frame 0 []
  = Some ({| rc := 0; audio_out := Double.buffer 160;
             dec_out := Double.dec0 |},
          [ {| ev_call := Call_decode_tone Double.dec0 160 Double.tone_frame;
               ev_status := 0 |} ]).
Proof. apply (@tone_run _ Double.nominal). reflexivity. Qed.

Lemma nominal_decode_params_calls :
  decode_params_calls (Double.trace_of Double.nominal)
  = [ @Call_decode_params Double.types (sf_prev Double.dec0)
        Double.speech_frame ].
Proof. vm_compute. reflexivity. Qed.

Lemma failing_run_reports :
  some_call_failed (Double.trace_of Double.failing) = true
  /\ rc (Double.outcome_of Double.failing) = 0.
Proof. split; vm_compute; reflexivity. Qed.


(** C1.  A Silence frame, N = 168, a buffer of 168 samples: 160 samples
    are cleared and the last eight keep their value, so fewer than N
    samples are written.  With N = 152 and a buffer of 168 samples the
    same 160 samples are cleared, eight more than asked for; and with a
    buffer of exactly 152 samples the store runs past its end. *)
Theorem silence_clears_160_not_N :
  @ambe_decode_frame _ Double.nominal Double.dec0 (Double.buffer 168) 168
    Double.silence_frame 0 []
  = Some ({| rc := 0; audio_out := replicate 160 0 ++ replicate 8 7;
             dec_out := Double.dec0 |}, [])
  /\ @ambe_decode_frame _ Double.nominal Double.dec0 (Double.buffer 168) 152
       Double.silence_frame 0 []
     = Some ({| rc := 0; audio_out := replicate 160 0 ++ replicate 8 7;
                dec_out := Double.dec0 |}, [])
  /\ @ambe_decode_frame _ Double.nominal Double.dec0 (Double.buffer 152) 152
       Double.silence_frame 0 []
     = None.
Proof. repeat split; vm_compute; reflexivity. Qed.

(** C2 as stated fails: with the nominal collaborators the parameter
    decoder is handed the same arguments for bad = 0 and bad = 1, so the
    flag cannot be read off the call. *)
Lemma bad_flag_forwarded_fails : ~ @bad_flag_forwarded _ Double.nominal.
Proof.
  intros [recover Hfw].
  pose proof (fun b Hb =>
                Hfw Double.dec0 (Double.buffer 160) 160 Double.speech_frame b
                  _ _ Hb eq_refl (nominal_run b)) as Hb.
  rewrite nominal_decode_params_calls in Hb.
  destruct (Hb 0 (or_introl eq_refl)) as (c & [<-|[]] & Hrec0).
  destruct (Hb 1 (or_intror eq_refl)) as (c' & [<-|[]] & Hrec1).
  rewrite Hrec0 in Hrec1. discriminate.
Qed.

(** C5 as stated fails: every collaborator reports -EINVAL on this Speech
    frame, and the entry point returns 0. *)
Lemma failures_surface_fails : ~ @failures_surface _ Double.failing.
Proof.
  intros Hs.
  pose proof (Hs Double.dec0 (Double.buffer 160) 160 Double.speech_frame 0
                _ _ eq_refl (failing_run 0) (proj1 failing_run_reports))
    as Hrc.
  rewrite (proj2 failing_run_reports) in Hrc. lia.
Qed.


Lemma conversion_at_f_1_2 :
  @ambe_subframe_to_mbelib _ Double.nominal Double.blank
    (Double.subframe_at f_1_2) = None.
Proof. vm_compute. reflexivity. Qed.

(** C8 as stated fails: a subframe with L = 3 and f0 = 0.5, whose three
    harmonics fit [Vl], [Ml] and [Mlog], is not converted -- for the
    second harmonic the band index is 8 and [v_uv] has eight entries. *)
Lemma converts_every_positive_subframe_fails :
  ~ @converts_every_positive_subframe _ Double.nominal.
Proof.
  intros Hall.
  destruct (Hall Double.blank (Double.subframe_at f_1_2))
    as (mp' & Hconv & _).
  - simpl. lia.
  - reflexivity.
  - rewrite conversion_at_f_1_2 in Hconv. discriminate.
Qed.

(** ** The theorems at work on concrete inputs *)

Section Witnesses.
#[local] Existing Instance Double.types.

Lemma dtx_never_fails_and_clears_N_witness :
  exists audio',
    ambe_decode_dtx Double.dec0 (Double.buffer 152) 152 []
    = Some ({| rc := 0; audio_out := audio'; dec_out := Double.dec0 |}, [])
    /\ length audio' = length (Double.buffer 152)
    /\ (forall i, 0 <= i < 152 -> array_get audio' i = Some 0)
    /\ (forall i, 152 <= i ->
          array_get audio' i = array_get (Double.buffer 152) i).
Proof.
  apply dtx_never_fails_and_clears_N; [lia|].
  unfold Double.buffer. rewrite length_replicate. lia.
Defined.

Lemma subframe_conversion_witness :
  exists mp',
    @ambe_subframe_to_mbelib _ Double.nominal Double.blank
      (Double.subframe_at Double.f_1_32) = Some mp'
    /\ w0 mp' = F32.mul Double.f_1_32 (F32.mul F32.two F32.M_PI_f)
    /\ mp_L mp' = 3.
Proof.
  destruct (@subframe_conversion _ Double.nominal Double.blank
              (Double.subframe_at Double.f_1_32))
    as (mp' & Hconv & Hw & HL & _).
  - simpl. lia.
  - reflexivity.
  - simpl. lia.
  - simpl. lia.
  - simpl. lia.
  - intros i Hi. simpl in Hi.
    assert (Hcases : i = 1 \/ i = 2 \/ i = 3) by lia.
    destruct Hcases as [-> | [-> | ->]].
    + exists 0. split; [vm_compute; reflexivity | simpl; lia].
    + exists 0. split; [vm_compute; reflexivity | simpl; lia].
    + exists 1. split; [vm_compute; reflexivity | simpl; lia].
  - exists mp'. auto.
Defined.

Lemma silence_keeps_decoder_state_witness :
  (forall r tr',
     @ambe_decode_frame _ Double.nominal Double.dec0 (Double.buffer 160) 160
       Double.silence_frame 1 [] = Some (r, tr') ->
     dec_out r = Double.dec0 /\ tr' = []
     /\ forall dec',
          @ambe_decode_frame _ Double.nominal dec' (Double.buffer 160) 160
            Double.silence_frame 1 []
          = Some ({| rc := rc r; audio_out := audio_out r;
                     dec_out := dec' |}, []))
  /\ (160 <= Z.of_nat (length (Double.buffer 160)) ->
      exists r,
        @ambe_decode_frame _ Double.nominal Double.dec0 (Double.buffer 160)
          160 Double.silence_frame 1 [] = Some (r, [])).
Proof.
  apply (@silence_keeps_decoder_state _ Double.nominal). reflexivity.
Defined.

Lemma speech_synthesis_chaining_witness :
  length (synthesis_calls (Double.trace_of Double.nominal)) = 2%nat
  /\ sf_prev (dec_out (Double.outcome_of Double.nominal))
     = Double.subframe_at Double.f_1_16.
Proof.
  destruct (@speech_synthesis_chaining _ Double.nominal Double.dec0
              (Double.buffer 160) 160 Double.speech_frame 0 []
              (Double.outcome_of Double.nominal)
              (Double.trace_of Double.nominal))
    as (c0 & c1 & _ & _ & Hs & _ & Hsf & _).
  - intros cur prev. reflexivity.
  - reflexivity.
  - apply nominal_run.
  - split; [rewrite Hs; reflexivity | exact Hsf].
Defined.

Lemma bad_flag_not_forwarded_witness :
  decode_params_calls (Double.trace_of Double.nominal)
  = decode_params_calls []
    ++ [ Call_decode_params (sf_prev Double.dec0)
           (@ambe_frame_unpack_raw _ Double.nominal Double.speech_frame).2 ]
  /\ forall bad',
       @ambe_decode_frame _ Double.nominal Double.dec0 (Double.buffer 160)
         160 Double.speech_frame bad' []
       = Some (Double.outcome_of Double.nominal,
               Double.trace_of Double.nominal).
Proof.
  apply (@bad_flag_not_forwarded _ Double.nominal Double.dec0
           (Double.buffer 160) 160 Double.speech_frame 1).
  - reflexivity.
  - apply nominal_run.
Defined.

Lemma speech_always_reports_success_witness :
  (@ambe_classify_frame Double.speech_frame = AMBE_SPEECH ->
   rc (Double.outcome_of Double.failing) = 0)
  /\ (rc (Double.outcome_of Double.failing) <> 0 ->
      ambe_classify_frame Double.speech_frame = AMBE_TONE
      /\ rc (Double.outcome_of Double.failing)
         = (@ambe_decode_tone _ Double.failing Double.dec0
              (Double.buffer 160) 160 Double.speech_frame).1).
Proof.
  apply (@speech_always_reports_success _ Double.failing Double.dec0
           (Double.buffer 160) 160 Double.speech_frame 0 []
           (Double.outcome_of Double.failing)
           (Double.trace_of Double.failing)).
  apply failing_run.
Defined.


End Witnesses.

(** * Further properties of the code *)

(** ** The converter: what it writes and when it is defined *)

Lemma array_ext {A} (a b : list A) :
  (forall i, array_get a i = array_get b i) -> a = b.
Proof.
  intros Hab. apply list_eq. intros n. specialize (Hab (Z.of_nat n)).
  unfold array_get in Hab. destruct (Z.leb_spec 0 (Z.of_nat n)); [|lia].
  rewrite Nat2Z.id in Hab. exact Hab.
Qed.

Section ConverterMore.
Context `{K : Collaborators}.

(** Everything a completed conversion did, in one place. *)
Lemma conversion_facts mp sf mp' :
  ambe_subframe_to_mbelib mp sf = Some mp' ->
  let unvc := F32.div F32.c_0_2046
                (F32.sqrtf (F32.mul (f0 sf) (F32.mul F32.two F32.M_PI_f))) in
  w0 mp' = F32.mul (f0 sf) (F32.mul F32.two F32.M_PI_f)
  /\ mp_L mp' = sf_L sf /\ mp_ext mp' = mp_ext mp
  /\ length (Vl mp') = length (Vl mp) /\ length (Ml mp') = length (Ml mp)
  /\ (forall i, 1 <= i <= sf_L sf ->
        exists j v mlog,
          F32.to_int (band_position sf i) = Some j
          /\ array_get (v_uv sf) j = Some v
          /\ array_get (Mlog sf) (i - 1) = Some mlog
          /\ array_get (Vl mp') i = Some v
          /\ array_get (Ml mp') i
             = Some (if v =? 0 then F32.mul (magnitude mlog) unvc
                     else magnitude mlog))
  /\ (forall i, i < 1 \/ sf_L sf < i ->
        array_get (Vl mp') i = array_get (Vl mp) i
        /\ array_get (Ml mp') i = array_get (Ml mp) i).
Proof.
  intros Hloop unvc. unfold ambe_subframe_to_mbelib in Hloop.
  apply harmonic_loop_Some in Hloop
    as (Hw & HL & He & HlV & HlM & Hin & Hout); [|lia].
  cbn [w0 mp_L mp_ext Vl Ml set_w0_L] in *.
  repeat (split; [assumption|]). split.
  - intros i Hi. apply Hin. lia.
  - intros i Hi. apply Hout. lia.
Qed.

Lemma conversion_defined mp sf :
  sf_L sf <= 0 \/ conversion_in_range mp sf ->
  exists mp', ambe_subframe_to_mbelib mp sf = Some mp'.
Proof.
  unfold ambe_subframe_to_mbelib. cbn [mp_L w0 set_w0_L]. intros Hok.
  destruct (Z_le_gt_dec (sf_L sf) 0) as [HL|HL].
  - replace (Z.to_nat (sf_L sf)) with 0%nat by lia. eexists. reflexivity.
  - destruct Hok as [HL' | (HV & HM & HMlog & Hidx)]; [lia|].
    apply harmonic_loop_defined; cbn [Vl Ml set_w0_L]; try lia.
    intros i Hi. apply Hidx. lia.
Qed.

Lemma conversion_defined_inv mp sf mp' :
  ambe_subframe_to_mbelib mp sf = Some mp' ->
  sf_L sf <= 0 \/ conversion_in_range mp sf.
Proof.
  intros Hconv. destruct (Z_le_gt_dec (sf_L sf) 0) as [HL|HL]; [left; exact HL|].
  right. apply conversion_facts in Hconv
    as (_ & _ & _ & HlV & HlM & Hin & _).
  destruct (Hin (sf_L sf)) as (j & v & mlog & _ & _ & Hm & HV & HM); [lia|].
  apply array_get_bound in Hm, HV, HM.
  repeat split; try lia.
  intros i Hi. destruct (Hin i Hi) as (j' & v' & _ & Hj & Hv & _).
  exists j'. split; [exact Hj|]. apply array_get_bound in Hv. exact Hv.
Qed.

End ConverterMore.

Section ConverterProperties.
Context `{K : Collaborators}.

(** X1.  A completed conversion writes [w0], [L] and the entries 1..L of
    [Vl] and [Ml], and nothing else: the other members of the parameter
    block, the sizes of the two arrays, entry 0 and every entry above L
    are what they were before the call. *)
Theorem converter_writes_only_harmonics mp sf mp' :
  ambe_subframe_to_mbelib mp sf = Some mp' ->
  mp_ext mp' = mp_ext mp
  /\ length (Vl mp') = length (Vl mp)
  /\ length (Ml mp') = length (Ml mp)
  /\ forall i, i <= 0 \/ sf_L sf < i ->
       array_get (Vl mp') i = array_get (Vl mp) i
       /\ array_get (Ml mp') i = array_get (Ml mp) i.
Proof.
  intros Hconv.
  apply conversion_facts in Hconv as (_ & _ & He & HlV & HlM & _ & Hout).
  repeat (split; [assumption|]).
  intros i Hi. apply Hout. lia.
Qed.

(** X2.  The conversion has defined behaviour exactly when there is no
    harmonic to convert (L <= 0), or L is below the sizes of [Vl] and
    [Ml], at most the size of [Mlog], and for every harmonic 1..L the band
    position converts to an [int] that is an index of [v_uv]. *)
Theorem converter_defined_iff mp sf :
  (exists mp', ambe_subframe_to_mbelib mp sf = Some mp')
  <-> sf_L sf <= 0
      \/ (sf_L sf < Z.of_nat (length (Vl mp))
          /\ sf_L sf < Z.of_nat (length (Ml mp))
          /\ sf_L sf <= Z.of_nat (length (Mlog sf))
          /\ forall i, 1 <= i <= sf_L sf ->
               exists j, F32.to_int (F32.mul (F32.mul (F32.of_int (i - 1))
                                                      F32.sixteen) (f0 sf))
                         = Some j
                         /\ 0 <= j < Z.of_nat (length (v_uv sf))).
Proof.
  split.
  - intros [mp' Hconv]. exact (conversion_defined_inv _ _ _ Hconv).
  - apply conversion_defined.
Qed.

(** X3.  What a conversion stores does not depend on what the parameter
    block held before: two completed conversions of the same subframe,
    into any two blocks, agree on [w0], on [L] and on the entries 1..L of
    [Vl] and [Ml]. *)
Theorem converter_ignores_prior_contents mp1 mp2 sf r1 r2 :
  ambe_subframe_to_mbelib mp1 sf = Some r1 ->
  ambe_subframe_to_mbelib mp2 sf = Some r2 ->
  w0 r1 = w0 r2 /\ mp_L r1 = mp_L r2
  /\ forall i, 1 <= i <= sf_L sf ->
       array_get (Vl r1) i = array_get (Vl r2) i
       /\ array_get (Ml r1) i = array_get (Ml r2) i.
Proof.
  intros H1 H2.
  apply conversion_facts in H1 as (Hw1 & HL1 & _ & _ & _ & Hin1 & _).
  apply conversion_facts in H2 as (Hw2 & HL2 & _ & _ & _ & Hin2 & _).
  split; [congruence|]. split; [congruence|].
  intros i Hi.
  destruct (Hin1 i Hi) as (j & v & mlog & Hj & Hv & Hm & HV1 & HM1).
  destruct (Hin2 i Hi) as (j' & v' & mlog' & Hj' & Hv' & Hm' & HV2 & HM2).
  assert (j' = j) by congruence. subst j'.
  assert (v' = v) by congruence. subst v'.
  assert (mlog' = mlog) by congruence. subst mlog'.
  split; congruence.
Qed.

(** X4.  Converting the same subframe a second time into the block the
    first conversion produced is defined and changes nothing. *)
Theorem converter_idempotent mp sf mp' :
  ambe_subframe_to_mbelib mp sf = Some mp' ->
  ambe_subframe_to_mbelib mp' sf = Some mp'.
Proof.
  intros Hconv.
  pose proof (conversion_defined_inv _ _ _ Hconv) as Hok.
  pose proof (conversion_facts _ _ _ Hconv)
    as (Hw & HL & He & HlV & HlM & Hin & Hout).
  destruct (conversion_defined mp' sf) as [mp'' Hconv'].
  { destruct Hok as [HL0 | (HV & HM & HMlog & Hidx)]; [left; exact HL0|].
    right. unfold conversion_in_range. rewrite HlV, HlM. auto. }
  rewrite Hconv'. f_equal.
  pose proof (conversion_facts _ _ _ Hconv')
    as (Hw' & HL' & He' & HlV' & HlM' & Hin' & Hout').
  assert (HVl : Vl mp'' = Vl mp').
  { apply array_ext. intros i.
    destruct (Z_lt_ge_dec i 1) as [Hlo|Hlo]; [apply Hout'; lia|].
    destruct (Z_lt_ge_dec (sf_L sf) i) as [Hhi|Hhi]; [apply Hout'; lia|].
    destruct (Hin i) as (j & v & mlog & Hj & Hv & Hm & HV1 & HM1); [lia|].
    destruct (Hin' i) as (j' & v' & mlog' & Hj' & Hv' & Hm' & HV2 & HM2);
      [lia|].
    congruence. }
  assert (HMl : Ml mp'' = Ml mp').
  { apply array_ext. intros i.
    destruct (Z_lt_ge_dec i 1) as [Hlo|Hlo]; [apply Hout'; lia|].
    destruct (Z_lt_ge_dec (sf_L sf) i) as [Hhi|Hhi]; [apply Hout'; lia|].
    destruct (Hin i) as (j & v & mlog & Hj & Hv & Hm & HV1 & HM1); [lia|].
    destruct (Hin' i) as (j' & v' & mlog' & Hj' & Hv' & Hm' & HV2 & HM2);
      [lia|].
    assert (j' = j) by congruence. subst j'.
    assert (v' = v) by congruence. subst v'.
    assert (mlog' = mlog) by congruence. subst mlog'.
    congruence. }
  destruct mp'', mp'. cbn [w0 mp_L Vl Ml mp_ext] in *. congruence.
Qed.

(** X5.  A subframe with at least one harmonic whose fundamental frequency
    is a NaN or an infinity cannot be converted: for the first harmonic
    the band position is 0 * 16 * f0, a NaN, and its cast to [int] is
    undefined. *)
Theorem converter_undefined_for_nan_or_infinite_f0 mp sf :
  1 <= sf_L sf ->
  f0 sf = S754_nan \/ (exists s, f0 sf = S754_infinity s) ->
  ambe_subframe_to_mbelib mp sf = None.
Proof.
  intros HL Hf. unfold ambe_subframe_to_mbelib. cbn [mp_L set_w0_L].
  destruct (Z.to_nat (sf_L sf)) as [|n] eqn:Hn; [lia|].
  cbn [harmonic_loop]. unfold harmonic_step, band_position.
  change (F32.mul (F32.of_int (1 - 1)) F32.sixteen) with (S754_zero false).
  destruct Hf as [-> | [s ->]]; reflexivity.
Qed.

End ConverterProperties.

(** ** The speech path: audio and calls *)

(** Two half-blocks of 80 samples, stored at offsets 0 and 80. *)
Lemma store_two_halves (audio pcm0 pcm1 : list Z) :
  length pcm0 = 80%nat -> length pcm1 = 80%nat ->
  (audio1 ← store_samples audio 0 pcm0; store_samples audio1 80 pcm1)
  = if 160 <=? Z.of_nat (length audio)
    then Some (pcm0 ++ pcm1 ++ drop 160 audio)
    else None.
Proof.
  intros H0 H1. unfold store_samples at 2. rewrite H0.
  change (Z.to_nat 0) with 0%nat. cbn [Nat.add Z.leb Z.compare andb].
  rewrite take_0. cbn [app].
  destruct (Z.leb_spec (0 + Z.of_nat 80) (Z.of_nat (length audio)))
    as [Hlen|Hlen]; cbn [mbind option_bind].
  - unfold store_samples.
    rewrite H1, length_app, H0, length_drop.
    change (Z.to_nat 80) with 80%nat. cbn [Z.leb Z.compare andb].
    destruct (Z.leb_spec (80 + Z.of_nat 80)
                (Z.of_nat (80 + (length audio - 80)))) as [Hlen'|Hlen'];
      destruct (Z.leb_spec 160 (Z.of_nat (length audio))); try lia.
    + rewrite take_app_length' by (symmetry; exact H0).
      rewrite (drop_app_add' pcm0 _ 80 80) by (symmetry; exact H0).
      rewrite drop_drop. reflexivity.
    + reflexivity.
  - destruct (Z.leb_spec 160 (Z.of_nat (length audio))); [lia | reflexivity].
Qed.

Section SpeechMore.
Context `{K : Collaborators}.

(** The speech decode once both conversions are defined: what remains
    undefined is a store past the end of the buffer. *)
Lemma speech_run_stores dec audio N fr bad tr c0 c1 :
  ambe_subframe_to_mbelib mp_auto.1 (decoded_subframes dec fr).1 = Some c0 ->
  ambe_subframe_to_mbelib mp_auto.2 (decoded_subframes dec fr).2 = Some c1 ->
  ambe_decode_speech dec audio N fr bad tr
  = match (audio1 ← store_samples audio 0 (syn_pcm (first_synthesis dec c0));
           store_samples audio1 80 (syn_pcm (second_synthesis dec c0 c1))) with
    | Some audio2 =>
        Some ({| rc := 0; audio_out := audio2;
                 dec_out := {| mp_prev := (final_move dec c0 c1).2.2;
                               sf_prev := (decoded_subframes dec fr).2 |} |},
              tr ++ speech_events dec fr c0 c1)
    | None => None
    end.
Proof.
  intros H0 H1.
  destruct (store_samples audio 0 (syn_pcm (first_synthesis dec c0)))
    as [audio1|] eqn:Ha1; cbn [mbind option_bind].
  - destruct (store_samples audio1 80 (syn_pcm (second_synthesis dec c0 c1)))
      as [audio2|] eqn:Ha2.
    + eapply speech_run_intro; eassumption.
    + destruct (ambe_decode_speech dec audio N fr bad tr) as [[r tr']|] eqn:Hrun;
        [|reflexivity].
      apply speech_run_inv in Hrun
        as (d0 & d1 & a1 & a2 & G0 & G1 & Ga1 & Ga2 & _).
      assert (d0 = c0) by congruence. assert (d1 = c1) by congruence.
      subst d0 d1. congruence.
  - destruct (ambe_decode_speech dec audio N fr bad tr) as [[r tr']|] eqn:Hrun;
      [|reflexivity].
    apply speech_run_inv in Hrun
      as (d0 & d1 & a1 & a2 & G0 & G1 & Ga1 & Ga2 & _).
    assert (d0 = c0) by congruence. subst d0. congruence.
Qed.

(** X6.  On a Speech frame whose subframes convert and whose two synthesis
    calls store 80 samples each, the entry point writes 160 samples
    whatever N is: into a buffer of at least 160 samples it puts the first
    half-block at 0..79 and the second at 80..159, leaves the rest of the
    buffer as it was and returns 0; into a shorter buffer the second or
    the first store runs past the end. *)
Theorem speech_writes_160_samples dec audio N fr bad tr c0 c1 :
  ambe_classify_frame fr = AMBE_SPEECH ->
  ambe_subframe_to_mbelib mp_auto.1 (decoded_subframes dec fr).1 = Some c0 ->
  ambe_subframe_to_mbelib mp_auto.2 (decoded_subframes dec fr).2 = Some c1 ->
  length (syn_pcm (first_synthesis dec c0)) = 80%nat ->
  length (syn_pcm (second_synthesis dec c0 c1)) = 80%nat ->
  ambe_decode_frame dec audio N fr bad tr
  = if 160 <=? Z.of_nat (length audio)
    then Some ({| rc := 0;
                  audio_out := syn_pcm (first_synthesis dec c0)
                               ++ syn_pcm (second_synthesis dec c0 c1)
                               ++ drop 160 audio;
                  dec_out := {| mp_prev := (final_move dec c0 c1).2.2;
                                sf_prev := (decoded_subframes dec fr).2 |} |},
               tr ++ speech_events dec fr c0 c1)
    else None.
Proof.
  intros Hc H0 H1 Hp0 Hp1.
  rewrite speech_frame_run by assumption.
  rewrite (speech_run_stores _ _ _ _ _ _ c0 c1) by assumption.
  rewrite store_two_halves by assumption.
  destruct (160 <=? Z.of_nat (length audio)); reflexivity.
Qed.

(** X7.  Which collaborators a completed call reaches is decided by the
    kind of frame alone.  A Speech frame makes seven calls in a fixed
    order -- unpack, parameter decode, the two enhancements, the two
    synthesis calls, the move -- and never the tone routine; a Silence
    frame makes none; a Tone frame makes the one call to
    [ambe_decode_tone], with N but without the bad-frame flag, and the
    return code, the audio and the state are the ones it produced. *)
Theorem calls_per_frame_kind dec audio N fr bad r tr :
  ambe_decode_frame dec audio N fr bad [] = Some (r, tr) ->
  match ambe_classify_frame fr with
  | AMBE_SPEECH =>
      exists c0 c1,
        let s0 := mbe_synthesizeSpeech (enhanced c0) (mp_prev dec) 2 in
        let s1 := mbe_synthesizeSpeech (enhanced c1) (syn_cur s0) 2 in
        calls tr
        = [ Call_unpack_raw fr;
            Call_decode_params (sf_prev dec) (ambe_frame_unpack_raw fr).2;
            Call_spectralAmpEnhance (Mp0, c0);
            Call_spectralAmpEnhance (Mp1, c1);
            Call_synthesizeSpeech 0 (Mp0, enhanced c0)
              (DecMpPrev, mp_prev dec) 2;
            Call_synthesizeSpeech 80 (Mp1, enhanced c1) (Mp0, syn_cur s0) 2;
            Call_moveMbeParms (Mp1, syn_cur s1) (DecMpPrev, syn_prev s0) ]
  | AMBE_SILENCE => tr = []
  | AMBE_TONE =>
      calls tr = [ Call_decode_tone dec N fr ]
      /\ r = {| rc := (ambe_decode_tone dec audio N fr).1;
                audio_out := (ambe_decode_tone dec audio N fr).2.1;
                dec_out := (ambe_decode_tone dec audio N fr).2.2 |}
  end.
Proof.
  intros Hrun. destruct (ambe_classify_frame fr) eqn:Hc.
  - rewrite speech_frame_run in Hrun by assumption.
    apply speech_run_inv in Hrun
      as (c0 & c1 & _ & _ & _ & _ & _ & _ & _ & ->).
    exists c0, c1. reflexivity.
  - rewrite silence_run in Hrun by assumption.
    destruct (160 <=? _); [|discriminate]. congruence.
  - rewrite tone_run in Hrun by assumption.
    injection Hrun as <- <-. split; reflexivity.
Qed.

(** X8.  The requested sample count only reaches the tone routine: on a
    Speech or a Silence frame the entry point does the same for any two
    values of N -- same definedness, same audio, same return code, same
    state, same calls. *)
Theorem sample_count_only_reaches_tone dec audio fr bad tr N1 N2 :
  ambe_classify_frame fr <> AMBE_TONE ->
  ambe_decode_frame dec audio N1 fr bad tr
  = ambe_decode_frame dec audio N2 fr bad tr.
Proof.
  intros Hc. unfold ambe_decode_frame.
  destruct (ambe_classify_frame fr); [reflexivity | reflexivity |].
  contradiction Hc. reflexivity.
Qed.

End SpeechMore.

(** ** The fillers, once more *)

Lemma memset_zero_negative (audio : list Z) (n : Z) :
  n < 0 -> memset_zero audio (sizeof_int16_t * n) = None.
Proof.
  intros Hn. unfold memset_zero, sizeof_int16_t.
  destruct (Z.leb_spec 0 (2 * n)); [lia | reflexivity].
Qed.

Section FillersMore.
Context `{K : Collaborators}.

(** X9.  [ambe_decode_dtx] has defined behaviour exactly when N is between
    0 and the number of samples the buffer holds: a negative N (a huge
    [size_t] once multiplied) and an N above the buffer size both clear
    past the end.  With N = 0 the call returns 0 and leaves the buffer as
    it is. *)
Theorem dtx_defined_iff dec audio N tr :
  ((exists r tr', ambe_decode_dtx dec audio N tr = Some (r, tr'))
   <-> 0 <= N <= Z.of_nat (length audio))
  /\ ambe_decode_dtx dec audio 0 tr
     = Some ({| rc := 0; audio_out := audio; dec_out := dec |}, tr).
Proof.
  split; [split|].
  - intros (r & tr' & Hrun). unfold ambe_decode_dtx, bind, defined in Hrun.
    destruct (Z_lt_ge_dec N 0) as [Hneg|Hnn].
    { rewrite memset_zero_negative in Hrun by assumption. discriminate. }
    destruct (Z_lt_ge_dec (Z.of_nat (length audio)) N) as [Hbig|Hfit].
    { rewrite memset_zero_overrun in Hrun by assumption. discriminate. }
    lia.
  - intros HN. rewrite ambe_decode_dtx_run by assumption. eauto.
  - rewrite ambe_decode_dtx_run by lia. reflexivity.
Qed.

(** X10.  A Silence frame is treated as a DTX period of 160 samples: for
    every N and every flag the entry point does exactly what
    [ambe_decode_dtx] does with N = 160 on the same buffer, undefined
    cases included. *)
Theorem silence_is_dtx_of_160 dec audio N fr bad tr :
  ambe_classify_frame fr = AMBE_SILENCE ->
  ambe_decode_frame dec audio N fr bad tr = ambe_decode_dtx dec audio 160 tr.
Proof.
  intros Hc. unfold ambe_decode_frame, ambe_decode_dtx. rewrite Hc.
  reflexivity.
Qed.

End FillersMore.

(** ** Frame kinds by value of the first byte *)

(** X11.  Read as a number, the first byte decides the kind of frame by
    range: below 0xF8 the frame is Speech, from 0xF8 to 0xFB it is
    Silence, from 0xFC on it is Tone; the two low bits never matter. *)
Theorem classify_by_first_byte_range (fr : frame) :
  (ambe_classify_frame fr = AMBE_SPEECH <-> byte_val (Vector.hd fr) < 0xf8)
  /\ (ambe_classify_frame fr = AMBE_SILENCE
      <-> 0xf8 <= byte_val (Vector.hd fr) <= 0xfb)
  /\ (ambe_classify_frame fr = AMBE_TONE <-> 0xfc <= byte_val (Vector.hd fr)).
Proof.
  unfold ambe_classify_frame.
  destruct (Vector.hd fr); vm_compute;
    repeat split; intros; try reflexivity; try discriminate;
    repeat match goal with
           | Hc : _ /\ _ |- _ => destruct Hc
           | Hc : ?f = _ -> False |- _ => contradiction Hc; reflexivity
           end.
Qed.

(** ** Initialisation *)

Section Init.
Context `{K : Collaborators} `{I : !InitCollaborators}.

Lemma init_same_layout d1 d2 :
  same_layout d1 d2 -> ambe_decode_init d1 = ambe_decode_init d2.
Proof.
  intros (HV & HM & Hv & Hl).
  unfold ambe_decode_init, zeroed_parms, zeroed_subframe. cbn [mp_prev sf_prev].
  rewrite HV, HM, Hv, Hl. reflexivity.
Qed.

(** X12.  Initialisation forgets whatever the decoder state held: two
    states of the same layout are initialised to the same state, whose
    previous subframe has frequency +0, no harmonics and cleared arrays
    and whose synthesis parameters are what [mbe_initMbeParms] makes of a
    cleared block. *)
Theorem init_forgets_prior_state d1 d2 :
  same_layout d1 d2 ->
  ambe_decode_init d1 = ambe_decode_init d2
  /\ f0 (sf_prev (ambe_decode_init d1)) = F32.zero
  /\ sf_L (sf_prev (ambe_decode_init d1)) = 0
  /\ (forall i x, array_get (v_uv (sf_prev (ambe_decode_init d1))) i = Some x ->
        x = 0)
  /\ (forall i x, array_get (Mlog (sf_prev (ambe_decode_init d1))) i = Some x ->
        x = F32.zero)
  /\ mp_prev (ambe_decode_init d1)
     = mbe_initMbeParms
         {| w0 := F32.zero; mp_L := 0;
            Vl := replicate (length (Vl (mp_prev d2))) 0;
            Ml := replicate (length (Ml (mp_prev d2))) F32.zero;
            mp_ext := mbe_ext_zero |}.
Proof.
  intros Hl. split; [apply init_same_layout; exact Hl|].
  rewrite (init_same_layout d1 d2 Hl).
  cbn [ambe_decode_init sf_prev mp_prev zeroed_subframe f0 sf_L v_uv Mlog].
  repeat split.
  - intros i x Hx. unfold array_get in Hx.
    destruct (0 <=? i); [|discriminate].
    apply lookup_replicate in Hx as [-> _]. reflexivity.
  - intros i x Hx. unfold array_get in Hx.
    destruct (0 <=? i); [|discriminate].
    apply lookup_replicate in Hx as [-> _]. reflexivity.
Qed.

(** X13.  The first Speech frame decoded after initialisation: the
    parameter decoder is handed the cleared subframe as previous subframe,
    the first synthesis call is handed, as predecessor, the parameters
    [mbe_initMbeParms] produced, and nothing of the outcome depends on
    what the state held before it was initialised. *)
Theorem first_speech_decode_after_init dec audio N fr bad r tr :
  ambe_classify_frame fr = AMBE_SPEECH ->
  ambe_decode_frame (ambe_decode_init dec) audio N fr bad [] = Some (r, tr) ->
  decode_params_calls tr
  = [ Call_decode_params (zeroed_subframe (sf_prev dec))
        (ambe_frame_unpack_raw fr).2 ]
  /\ (exists c0 next,
        synthesis_calls tr
        = [ Call_synthesizeSpeech 0 (Mp0, c0)
              (DecMpPrev, mbe_initMbeParms (zeroed_parms (mp_prev dec))) 2;
            next ])
  /\ forall dec',
       same_layout dec dec' ->
       ambe_decode_frame (ambe_decode_init dec') audio N fr bad []
       = Some (r, tr).
Proof.
  intros Hc Hrun. split; [|split].
  - rewrite speech_frame_run in Hrun by assumption.
    apply speech_run_inv in Hrun
      as (c0 & c1 & _ & _ & _ & _ & _ & _ & _ & ->).
    reflexivity.
  - rewrite speech_frame_run in Hrun by assumption.
    apply speech_run_inv in Hrun
      as (c0 & c1 & _ & _ & _ & _ & _ & _ & _ & ->).
    eexists _, _. reflexivity.
  - intros dec' Hl. rewrite <- (init_same_layout dec dec' Hl). exact Hrun.
Qed.

End Init.

(** ** Frames that leave the session alone *)

Section Transparent.
Context `{K : Collaborators}.

(** X14.  A Silence frame followed by a DTX period is invisible to
    whatever is decoded next: both leave the decoder state and the record
    of calls as they found them, so any frame decoded afterwards gives
    exactly the outcome it would have given had it been decoded
    directly. *)
Theorem silence_and_dtx_are_transparent
    dec audio1 N1 fs bad1 audio2 N2 tr r1 tr1 r2 tr2 :
  ambe_classify_frame fs = AMBE_SILENCE ->
  ambe_decode_frame dec audio1 N1 fs bad1 tr = Some (r1, tr1) ->
  ambe_decode_dtx (dec_out r1) audio2 N2 tr1 = Some (r2, tr2) ->
  tr2 = tr /\ dec_out r2 = dec
  /\ forall audio3 N3 fr bad3,
       ambe_decode_frame (dec_out r2) audio3 N3 fr bad3 tr2
       = ambe_decode_frame dec audio3 N3 fr bad3 tr.
Proof.
  intros Hc Hs Hd. rewrite silence_run in Hs by assumption.
  destruct (160 <=? Z.of_nat (length audio1)); [|discriminate].
  injection Hs as <- <-. cbn [dec_out] in Hd.
  unfold ambe_decode_dtx, bind, defined, ret in Hd.
  destruct (memset_zero audio2 (sizeof_int16_t * N2)); [|discriminate].
  injection Hd as <- <-. cbn [dec_out]. auto.
Qed.

End Transparent.

(** ** The further properties at work on concrete inputs *)

Lemma runs_c0 :
  @ambe_subframe_to_mbelib _ Double.nominal (@mp_auto _ Double.nominal).1
    (@decoded_subframes _ Double.nominal Double.dec0 Double.speech_frame).1
  = Some Runs.c0.
Proof. vm_compute. reflexivity. Qed.

Lemma runs_c1 :
  @ambe_subframe_to_mbelib _ Double.nominal (@mp_auto _ Double.nominal).2
    (@decoded_subframes _ Double.nominal Double.dec0 Double.speech_frame).2
  = Some Runs.c1.
Proof. vm_compute. reflexivity. Qed.

Lemma runs_converted_blank :
  @ambe_subframe_to_mbelib _ Double.nominal Double.blank Runs.sf32
  = Some (Runs.converted Double.blank Runs.sf32).
Proof. vm_compute. reflexivity. Qed.

Lemma runs_converted_used :
  @ambe_subframe_to_mbelib _ Double.nominal (mp_prev InitDouble.used) Runs.sf32
  = Some (Runs.converted (mp_prev InitDouble.used) Runs.sf32).
Proof. vm_compute. reflexivity. Qed.

Lemma runs_after_silence :
  @ambe_decode_frame _ Double.nominal Double.dec0 (Double.buffer 160) 168
    Double.silence_frame 1 []
  = Some (Runs.after_silence, []).
Proof. vm_compute. reflexivity. Qed.

Lemma runs_after_dtx :
  ambe_decode_dtx (dec_out Runs.after_silence) (Double.buffer 160) 152 []
  = Some (Runs.after_dtx, []).
Proof. vm_compute. reflexivity. Qed.

Lemma runs_first :
  @ambe_decode_frame _ Double.nominal
    (@ambe_decode_init _ InitDouble.init Double.dec0)
    (Double.buffer 160) 160 Double.speech_frame 0 []
  = Some (Runs.first_outcome, Runs.first_trace).
Proof. vm_compute. reflexivity. Qed.

Section MoreWitnesses.
#[local] Existing Instance Double.types.

Lemma converter_writes_only_harmonics_witness :
  array_get (Vl (Runs.converted Double.blank Runs.sf32)) 4
  = array_get (Vl Double.blank) 4
  /\ array_get (Ml (Runs.converted Double.blank Runs.sf32)) 4
     = array_get (Ml Double.blank) 4.
Proof.
  destruct (@converter_writes_only_harmonics _ Double.nominal _ _ _
              runs_converted_blank) as (_ & _ & _ & Hout).
  apply Hout. right. simpl. lia.
Defined.

Lemma converter_ignores_prior_contents_witness :
  w0 (Runs.converted Double.blank Runs.sf32)
  = w0 (Runs.converted (mp_prev InitDouble.used) Runs.sf32)
  /\ mp_L (Runs.converted Double.blank Runs.sf32)
     = mp_L (Runs.converted (mp_prev InitDouble.used) Runs.sf32).
Proof.
  destruct (@converter_ignores_prior_contents _ Double.nominal _ _ _ _ _
              runs_converted_blank runs_converted_used) as (Hw & HL & _).
  split; assumption.
Defined.

Lemma converter_idempotent_witness :
  @ambe_subframe_to_mbelib _ Double.nominal
    (Runs.converted Double.blank Runs.sf32) Runs.sf32
  = Some (Runs.converted Double.blank Runs.sf32).
Proof.
  apply (@converter_idempotent _ Double.nominal Double.blank).
  apply runs_converted_blank.
Defined.

Lemma converter_undefined_for_nan_or_infinite_f0_witness :
  @ambe_subframe_to_mbelib _ Double.nominal Double.blank
    (Double.subframe_at S754_nan) = None.
Proof.
  apply (@converter_undefined_for_nan_or_infinite_f0 _ Double.nominal).
  - simpl. lia.
  - left. reflexivity.
Defined.

Lemma speech_writes_160_samples_witness :
  @ambe_decode_frame _ Double.nominal Double.dec0 (Double.buffer 168) 152
    Double.speech_frame 0 []
  = if 160 <=? Z.of_nat (length (Double.buffer 168))
    then Some ({| rc := 0;
                  audio_out :=
                    syn_pcm (@first_synthesis _ Double.nominal Double.dec0 Runs.c0)
                    ++ syn_pcm (@second_synthesis _ Double.nominal Double.dec0
                                  Runs.c0 Runs.c1)
                    ++ drop 160 (Double.buffer 168);
                  dec_out :=
                    {| mp_prev := (@final_move _ Double.nominal Double.dec0
                                     Runs.c0 Runs.c1).2.2;
                       sf_prev := (@decoded_subframes _ Double.nominal
                                     Double.dec0 Double.speech_frame).2 |} |},
               [] ++ @speech_events _ Double.nominal Double.dec0
                       Double.speech_frame Runs.c0 Runs.c1)
    else None.
Proof.
  apply (@speech_writes_160_samples _ Double.nominal).
  - reflexivity.
  - exact runs_c0.
  - exact runs_c1.
  - reflexivity.
  - reflexivity.
Defined.

Lemma calls_per_frame_kind_witness :
  length (calls (Double.trace_of Double.nominal)) = 7%nat.
Proof.
  destruct (@calls_per_frame_kind _ Double.nominal _ _ _ _ _ _ _
              (nominal_run 0)) as (c0 & c1 & Hcalls).
  rewrite Hcalls. reflexivity.
Defined.

Lemma sample_count_only_reaches_tone_witness :
  @ambe_decode_frame _ Double.nominal Double.dec0 (Double.buffer 168) 152
    Double.speech_frame 0 []
  = @ambe_decode_frame _ Double.nominal Double.dec0 (Double.buffer 168) 168
      Double.speech_frame 0 [].
Proof.
  apply (@sample_count_only_reaches_tone _ Double.nominal).
  change (AMBE_SPEECH <> AMBE_TONE). discriminate.
Defined.

Lemma silence_is_dtx_of_160_witness :
  @ambe_decode_frame _ Double.nominal Double.dec0 (Double.buffer 168) 152
    Double.silence_frame 0 []
  = ambe_decode_dtx Double.dec0 (Double.buffer 168) 160 [].
Proof.
  apply (@silence_is_dtx_of_160 _ Double.nominal). reflexivity.
Defined.

Lemma init_forgets_prior_state_witness :
  @ambe_decode_init _ InitDouble.init InitDouble.used
  = @ambe_decode_init _ InitDouble.init Double.dec0.
Proof.
  apply (@init_forgets_prior_state _ InitDouble.init).
  repeat split; reflexivity.
Defined.

Lemma first_speech_decode_after_init_witness :
  decode_params_calls Runs.first_trace
  = [ Call_decode_params (zeroed_subframe (sf_prev Double.dec0))
        (@ambe_frame_unpack_raw _ Double.nominal Double.speech_frame).2 ].
Proof.
  apply (@first_speech_decode_after_init _ Double.nominal InitDouble.init
           Double.dec0 (Double.buffer 160) 160 Double.speech_frame 0
           Runs.first_outcome Runs.first_trace).
  - reflexivity.
  - exact runs_first.
Defined.

Lemma silence_and_dtx_are_transparent_witness :
  dec_out Runs.after_dtx = Double.dec0.
Proof.
  apply (@silence_and_dtx_are_transparent _ Double.nominal Double.dec0
           (Double.buffer 160) 168 Double.silence_frame 1
           (Double.buffer 160) 152 [] Runs.after_silence []
           Runs.after_dtx []).
  - reflexivity.
  - exact runs_after_silence.
  - exact runs_after_dtx.
Defined.

End MoreWitnesses.
